(** * Footprint and dependency propagation: a shallow embedding

    This development embeds the two numerical routines of the repository,
    [compute_bank_biodiversity_footprint] (src/biodiversity_footprint.py) and
    [compute_dependencies] (src/dependency.py), and states the properties of
    the specification over them.

    Conventions of the embedding.
    - A float is an exact rational ([Q]); equalities between computed numbers
      are stated with [==].  A missing cell (pandas NaN produced by a left
      join or a reindex) is [None] in an [option Q] column.
    - A pandas DataFrame indexed by (country, sector) is a list of labelled
      rows together with its column labels; row order is the frame's order.
    - A Python exception is the left injection of a sum; [try/except KeyError]
      is [try_except_KeyError].
    - Labels are unique within a table, as the data model requires; the
      statements that read a table by label say so in their premises. *)

From Stdlib Require Import String NArith QArith Qminmax Lqa Bool Arith Lia List Permutation Sorted.
Import ListNotations.
Open Scope Q_scope.

(** ** Exceptions *)

Inductive exn : Type :=
| KeyError
| ValueError.

Definition result (A : Type) : Type := (exn + A)%type.

Definition ret {A} (a : A) : result A := inr a.

Definition bind {A B} (m : result A) (k : A -> result B) : result B :=
  match m with
  | inl e => inl e
  | inr a => k a
  end.

Notation "x <- m ;; k" := (bind m (fun x => k))
  (at level 61, m at next level, right associativity).

(** [try: body except KeyError: handler]; any other exception propagates. *)
Definition try_except_KeyError {A} (body handler : result A) : result A :=
  match body with
  | inl KeyError => handler
  | other => other
  end.

(** ** Keys and comparisons *)

Definition SectorKey : Type := (string * string)%type.

Definition key_eqb (a b : SectorKey) : bool :=
  String.eqb (fst a) (fst b) && String.eqb (snd a) (snd b).

Definition Qltb (a b : Q) : bool :=
  (Qnum a * QDen b <? Qnum b * QDen a)%Z.

(** ** numpy *)

Module Np.

(** A two-dimensional array: its shape and its rows. *)
Record ndarray : Type := mk_ndarray {
  shape : nat * nat;
  data : list (list Q)
}.

Definition sum (v : list Q) : Q := fold_right Qplus 0 v.

(** [np.diag(v)] for a one-dimensional [v]. *)
Definition diag (v : list Q) : ndarray :=
  let d := length v in
  {| shape := (d, d);
     data := map (fun i => map (fun j => if Nat.eqb i j then nth i v 0 else 0)
                               (seq 0 d))
                 (seq 0 d) |}.

Definition column (j : nat) (m : list (list Q)) : list Q :=
  map (fun r => nth j r 0) m.

(** Inner product of a row with a column. *)
Definition inner (a b : list Q) : Q :=
  sum (map (fun p => fst p * snd p) (combine a b)).

End Np.

(** ** pandas *)

Module Pd.

(** A frame indexed by SectorKey: column labels and labelled rows. *)
Record DataFrame (C : Type) : Type := mk_frame {
  columns : list C;
  rows : list (SectorKey * list Q)
}.
Arguments mk_frame {C} _ _.
Arguments columns {C} _.
Arguments rows {C} _.

Definition index {C} (df : DataFrame C) : list SectorKey := map fst (rows df).
Definition values {C} (df : DataFrame C) : list (list Q) := map snd (rows df).

(** [df.T] of a frame whose columns are SectorKeys. *)
Definition T (df : DataFrame SectorKey) : DataFrame SectorKey :=
  {| columns := index df;
     rows := map (fun jc => (snd jc, Np.column (fst jc) (values df)))
                 (combine (seq 0 (length (columns df))) (columns df)) |}.

(** [df @ other] for an ndarray [other]: labels of [df] are kept on the
    rows, the product is positional, and the shapes must agree. *)
Definition dot {C} (df : DataFrame C) (other : Np.ndarray)
  : result (list (SectorKey * list Q)) :=
  if Nat.eqb (length (columns df)) (fst (Np.shape other)) then
    ret (map (fun r => (fst r,
                        map (fun j => Np.inner (snd r) (Np.column j (Np.data other)))
                            (seq 0 (snd (Np.shape other)))))
             (rows df))
  else inl ValueError.

(** [frame.sum(axis=1)]: a Series on the frame's index. *)
Definition sum_axis1 (m : list (SectorKey * list Q)) : list (SectorKey * Q) :=
  map (fun r => (fst r, Np.sum (snd r))) m.

Definition lookup {V} (k : SectorKey) (s : list (SectorKey * V)) : option V :=
  match find (fun r => key_eqb (fst r) k) s with
  | Some r => Some (snd r)
  | None => None
  end.

(** [pd.Series(s, index=new_index)]: realignment by label, NaN where the
    label is not in [s].  The labels of [s] are taken to be unique, as the
    data model requires: pandas refuses to reindex on duplicate labels. *)
Definition reindex (s : list (SectorKey * Q)) (new_index : list SectorKey)
  : list (SectorKey * option Q) :=
  map (fun k => (k, lookup k s)) new_index.

(** [left.merge(right, on=key, how='left')]: every left row is kept, once
    per matching right row, and once with missing right cells if none
    matches.  A left key that is itself missing matches nothing. *)
Definition merge_left {A B K} (eqb : K -> K -> bool)
    (kl : A -> option K) (kr : B -> K)
    (left : list A) (right : list B) : list (A * option B) :=
  flat_map (fun a =>
    match kl a with
    | None => [(a, None)]
    | Some k =>
        match filter (fun b => eqb k (kr b)) right with
        | [] => [(a, None)]
        | bs => map (fun b => (a, Some b)) bs
        end
    end) left.

(** [df.loc[(c, j)]] on the row axis, for a frame with unique labels. *)
Definition loc {C} (df : DataFrame C) (k : SectorKey) : result (list Q) :=
  match lookup k (rows df) with
  | Some r => ret r
  | None => inl KeyError
  end.

(** Cell arithmetic on a column that may hold missing values. *)
Definition mul_cell (a : option Q) (q : Q) : option Q :=
  match a with
  | Some x => Some (x * q)
  | None => None
  end.

(** [sum] of a column, missing cells skipped. *)
Definition sum_skipna (c : list (option Q)) : Q :=
  Np.sum (map (fun o => match o with Some q => q | None => 0 end) c).

(** The sorted distinct labels that [groupby] reports. *)
Fixpoint insert_label (b : string) (l : list string) : list string :=
  match l with
  | [] => [b]
  | x :: r =>
      match String.compare b x with
      | Lt => b :: l
      | Eq => l
      | Gt => x :: insert_label b r
      end
  end.

Definition group_labels (bs : list string) : list string :=
  fold_right insert_label [] bs.

End Pd.

(** ** src/biodiversity_footprint.py *)

Record Loan : Type := mk_loan {
  l_bank_id : string;
  l_firm_id : string;
  l_loan_amount : Q
}.

Record Firm : Type := mk_firm {
  f_firm_id : string;
  f_country : string;
  f_sector : string
}.

(** A row of [direct_intensity_vector]: its index label and two columns. *)
Record Intensity : Type := mk_intensity {
  dv_key : SectorKey;
  dv_msa_ghg_per_eur : Q;
  dv_msa_lu_per_eur : Q
}.

(** A row of [indirect_df]. *)
Record Indirect : Type := mk_indirect {
  in_key : SectorKey;
  in_msa_ghg_total_per_eur : option Q;
  in_msa_lu_total_per_eur : option Q
}.

(** A row of the working frame [df] once every column has been added. *)
Record Row : Type := mk_row {
  bank_id : string;
  firm_id : string;
  loan_amount : Q;
  country : option string;
  sector : option string;
  key : option SectorKey;
  msa_ghg_per_eur : option Q;
  msa_lu_per_eur : option Q;
  msa_ghg_direct : option Q;
  msa_lu_direct : option Q;
  msa_ghg_total_per_eur : option Q;
  msa_lu_total_per_eur : option Q;
  msa_ghg_total : option Q;
  msa_lu_total : option Q
}.

(** A row of the returned [bank_fp]. *)
Record BankRow : Type := mk_bank_row {
  b_bank_id : string;
  b_msa_ghg_total : Q;
  b_msa_lu_total : Q;
  b_msa_total : Q
}.

Definition F_ghg (direct_intensity_vector : list Intensity) : Np.ndarray :=
  Np.diag (map dv_msa_ghg_per_eur direct_intensity_vector).

Definition F_lu (direct_intensity_vector : list Intensity) : Np.ndarray :=
  Np.diag (map dv_msa_lu_per_eur direct_intensity_vector).

(** [pd.Series((leontief_inverse.T @ F).sum(axis=1), index=leontief_inverse.index)] *)
Definition indirect_series (leontief_inverse : Pd.DataFrame SectorKey)
    (F : Np.ndarray) : result (list (SectorKey * option Q)) :=
  Ftot <- Pd.dot (Pd.T leontief_inverse) F ;;
  ret (Pd.reindex (Pd.sum_axis1 Ftot) (Pd.index leontief_inverse)).

(** Lines 38-55: the total intensity per euro, one row per label of the
    Leontief inverse's index. *)
Definition indirect_df (direct_intensity_vector : list Intensity)
    (leontief_inverse : Pd.DataFrame SectorKey) : result (list Indirect) :=
  indirect_ghg <- indirect_series leontief_inverse (F_ghg direct_intensity_vector) ;;
  indirect_lu <- indirect_series leontief_inverse (F_lu direct_intensity_vector) ;;
  ret (map (fun gl => {| in_key := fst (fst gl);
                         in_msa_ghg_total_per_eur := snd (fst gl);
                         in_msa_lu_total_per_eur := snd (snd gl) |})
           (combine indirect_ghg indirect_lu)).

Definition zip_key (c s : option string) : option SectorKey :=
  match c, s with
  | Some c', Some s' => Some (c', s')
  | _, _ => None
  end.

(** Lines 26-36 and 57-59: the three left joins and the impact columns. *)
Definition df (loan_data : list Loan) (firm_info : list Firm)
    (direct_intensity_vector : list Intensity) (indirect : list Indirect)
    : list Row :=
  let df1 := Pd.merge_left String.eqb (fun l => Some (l_firm_id l)) f_firm_id
                           loan_data firm_info in
  let key1 := fun (r : Loan * option Firm) =>
    zip_key (option_map f_country (snd r)) (option_map f_sector (snd r)) in
  let df2 := Pd.merge_left key_eqb key1 dv_key df1 direct_intensity_vector in
  let df3 := Pd.merge_left key_eqb (fun r => key1 (fst r)) in_key df2 indirect in
  map (fun r =>
    let l := fst (fst (fst r)) in
    let f := snd (fst (fst r)) in
    let d := snd (fst r) in
    let i := snd r in
    let ghg := option_map dv_msa_ghg_per_eur d in
    let lu := option_map dv_msa_lu_per_eur d in
    let ghg_tot := match i with Some x => in_msa_ghg_total_per_eur x | None => None end in
    let lu_tot := match i with Some x => in_msa_lu_total_per_eur x | None => None end in
    {| bank_id := l_bank_id l;
       firm_id := l_firm_id l;
       loan_amount := l_loan_amount l;
       country := option_map f_country f;
       sector := option_map f_sector f;
       key := key1 (fst (fst r));
       msa_ghg_per_eur := ghg;
       msa_lu_per_eur := lu;
       msa_ghg_direct := Pd.mul_cell ghg (l_loan_amount l);
       msa_lu_direct := Pd.mul_cell lu (l_loan_amount l);
       msa_ghg_total_per_eur := ghg_tot;
       msa_lu_total_per_eur := lu_tot;
       msa_ghg_total := Pd.mul_cell ghg_tot (l_loan_amount l);
       msa_lu_total := Pd.mul_cell lu_tot (l_loan_amount l) |}) df3.

(** Lines 62-67: [groupby('bank_id')], the two sums and their total. *)
Definition bank_fp (rows : list Row) : list BankRow :=
  map (fun b =>
    let grp := filter (fun r => String.eqb (bank_id r) b) rows in
    let ghg := Pd.sum_skipna (map msa_ghg_total grp) in
    let lu := Pd.sum_skipna (map msa_lu_total grp) in
    {| b_bank_id := b;
       b_msa_ghg_total := ghg;
       b_msa_lu_total := lu;
       b_msa_total := ghg + lu |})
    (Pd.group_labels (map bank_id rows)).

(** The whole function.  [msa_ghg_factor] is a parameter of the source
    that its body never reads. *)
Definition compute_bank_biodiversity_footprint (loan_data : list Loan)
    (firm_info : list Firm) (direct_intensity_vector : list Intensity)
    (leontief_inverse : Pd.DataFrame SectorKey) (msa_ghg_factor : Q)
    : result (list BankRow) :=
  indirect <- indirect_df direct_intensity_vector leontief_inverse ;;
  ret (bank_fp (df loan_data firm_info direct_intensity_vector indirect)).

(** ** src/dependency.py *)

(** One entry of the result row per ecosystem service: the three cells
    [es_direct], [es_indirect] and [es_total]. *)
Record ServiceScore : Type := mk_service_score {
  es : string;
  es_direct : Q;
  es_indirect : Q;
  es_total : Q
}.

(** The dictionary [firm_row]. *)
Record FirmRow : Type := mk_firm_row {
  fr_country : string;
  fr_sector : string;
  fr_scores : list ServiceScore
}.

Definition firm_keys (firms : list Firm) : list SectorKey :=
  map (fun f => (f_country f, f_sector f)) firms.

(** [pd.Series([0.0]*len(es_services), index=es_services)] *)
Definition zero_series (es_services : list string) : list Q :=
  map (fun _ => 0) es_services.

(** [row_L / row_sum] when [row_sum > 0], else a copy of the row set to 0. *)
Definition weights_of (row_L : list Q) : list Q :=
  let row_sum := Np.sum row_L in
  if Qltb 0 row_sum then map (fun x => x / row_sum) row_L
  else map (fun _ => 0) row_L.

(** [encore_ds_direct.mul(weights.values, axis=0).sum()]: the rows are
    scaled by position, which requires as many weights as rows, and the
    columns are then summed. *)
Definition mul_axis0_sum (encore_ds_direct : Pd.DataFrame string)
    (weights : list Q) : result (list Q) :=
  if Nat.eqb (length weights) (length (Pd.rows encore_ds_direct)) then
    let scaled := map (fun rw => map (fun x => x * snd rw) (snd (fst rw)))
                      (combine (Pd.rows encore_ds_direct) weights) in
    ret (map (fun j => Np.sum (Np.column j scaled))
             (seq 0 (length (Pd.columns encore_ds_direct))))
  else inl ValueError.

(** [ds_direct + (1 - ds_direct) * indirect_score], cell by cell. *)
Definition total_cell (d i : Q) : Q := d + (1 - d) * i.

Definition total_score (ds_direct indirect_score : list Q) : list Q :=
  map (fun di => total_cell (fst di) (snd di)) (combine ds_direct indirect_score).

(** The body of the loop for one firm key [(c, j)].  The reads
    [ds_direct[es]], [indirect_score[es]] and [total_score[es]] by service
    name are, for unique service names, the cells at the service's
    position. *)
Definition firm_row (encore_ds_direct : Pd.DataFrame string)
    (leontief_inverse : Pd.DataFrame SectorKey) (cj : SectorKey)
    : result FirmRow :=
  let es_services := Pd.columns encore_ds_direct in
  ds_direct <- try_except_KeyError (Pd.loc encore_ds_direct cj)
                                   (ret (zero_series es_services)) ;;
  indirect_score <- try_except_KeyError
                      (row_L <- Pd.loc leontief_inverse cj ;;
                       mul_axis0_sum encore_ds_direct (weights_of row_L))
                      (ret (zero_series es_services)) ;;
  let total := total_score ds_direct indirect_score in
  ret {| fr_country := fst cj;
         fr_sector := snd cj;
         fr_scores :=
           map (fun je => {| es := snd je;
                             es_direct := nth (fst je) ds_direct 0;
                             es_indirect := nth (fst je) indirect_score 0;
                             es_total := nth (fst je) total 0 |})
               (combine (seq 0 (length es_services)) es_services) |}.

Fixpoint for_each {A B} (f : A -> result B) (l : list A) : result (list B) :=
  match l with
  | [] => ret []
  | a :: l' =>
      b <- f a ;;
      bs <- for_each f l' ;;
      ret (b :: bs)
  end.

Definition compute_dependencies (firms : list Firm)
    (encore_ds_direct : Pd.DataFrame string)
    (leontief_inverse : Pd.DataFrame SectorKey) : result (list FirmRow) :=
  for_each (firm_row encore_ds_direct leontief_inverse) (firm_keys firms).

(** ** Well-formedness of the inputs

    A pandas frame is rectangular and, by the data model, its labels are
    unique.  These are the checks the statements below take as premises. *)

Fixpoint unique_keys (l : list SectorKey) : bool :=
  match l with
  | [] => true
  | k :: l' => negb (existsb (key_eqb k) l') && unique_keys l'
  end.


(** ** Accessors used to state the properties by label *)

(** Entry of the Leontief inverse at row label [r] and column label [c];
    0 when a label is absent. *)
Definition position (k : SectorKey) (l : list SectorKey) : option nat :=
  match find (fun jc => key_eqb (snd jc) k) (combine (seq 0 (length l)) l) with
  | Some jc => Some (fst jc)
  | None => None
  end.

Definition L_at (L : Pd.DataFrame SectorKey) (r c : SectorKey) : Q :=
  match Pd.lookup r (Pd.rows L), position c (Pd.columns L) with
  | Some row, Some j => nth j row 0
  | _, _ => 0
  end.

Definition direct_of (p : Intensity -> Q) (direct : list Intensity)
    (k : SectorKey) : Q :=
  match find (fun d => key_eqb (dv_key d) k) direct with
  | Some d => p d
  | None => 0
  end.


(** The propagated intensity as the specification writes it:
    [total_p[k] = sum over k' of L[k', k] * direct_p[k']]. *)
Definition total_formula (p : Intensity -> Q) (direct : list Intensity)
    (L : Pd.DataFrame SectorKey) (k : SectorKey) : Q :=
  Np.sum (map (fun k' => L_at L k' k * direct_of p direct k') (map dv_key direct)).

(** [L] is the identity matrix on its labels. *)
Definition is_identity (L : Pd.DataFrame SectorKey) : bool :=
  forallb (fun r =>
    forallb (fun c => Qeq_bool (L_at L r c) (if key_eqb r c then 1 else 0))
            (Pd.columns L))
    (Pd.index L).

(** Entry [j] of the Series [(L.T @ diag(v)).sum(axis=1)], as computed. *)
Definition propagated (L : Pd.DataFrame SectorKey) (v : list Q) (j : nat) : Q :=
  Np.sum (map (fun j' => Np.inner (Np.column j (Pd.values L))
                                  (Np.column j' (Np.data (Np.diag v))))
              (seq 0 (length v))).


(** The row of [df] for a loan whose firm is not in [firm_info]: every
    joined cell is missing. *)
Definition missing_row (l : Loan) : Row :=
  {| bank_id := l_bank_id l;
     firm_id := l_firm_id l;
     loan_amount := l_loan_amount l;
     country := None;
     sector := None;
     key := None;
     msa_ghg_per_eur := None;
     msa_lu_per_eur := None;
     msa_ghg_direct := None;
     msa_lu_direct := None;
     msa_ghg_total_per_eur := None;
     msa_lu_total_per_eur := None;
     msa_ghg_total := None;
     msa_lu_total := None |}.

(** The row of [df] for a loan to firm [f] whose SectorKey is in neither
    intensity table: the key is known, the intensities and impacts are
    missing. *)
Definition unmodelled_row (l : Loan) (f : Firm) : Row :=
  {| bank_id := l_bank_id l;
     firm_id := l_firm_id l;
     loan_amount := l_loan_amount l;
     country := Some (f_country f);
     sector := Some (f_sector f);
     key := Some (f_country f, f_sector f);
     msa_ghg_per_eur := None;
     msa_lu_per_eur := None;
     msa_ghg_direct := None;
     msa_lu_direct := None;
     msa_ghg_total_per_eur := None;
     msa_lu_total_per_eur := None;
     msa_ghg_total := None;
     msa_lu_total := None |}.

(** The value reported for bank [b] in a column of [bank_fp]; 0 when the
    bank has no row. *)
Definition bank_total (col : BankRow -> Q) (fp : list BankRow) (b : string) : Q :=
  match find (fun r => String.eqb (b_bank_id r) b) fp with
  | Some r => col r
  | None => 0
  end.

(** The Series [ds_direct] of the loop body. *)
Definition direct_scores (encore_ds_direct : Pd.DataFrame string)
    (cj : SectorKey) : list Q :=
  match Pd.lookup cj (Pd.rows encore_ds_direct) with
  | Some r => r
  | None => zero_series (Pd.columns encore_ds_direct)
  end.

(** The Series [indirect_score] of the loop body when no exception
    escapes it. *)
Definition indirect_scores (encore_ds_direct : Pd.DataFrame string)
    (leontief_inverse : Pd.DataFrame SectorKey) (cj : SectorKey) : list Q :=
  match Pd.lookup cj (Pd.rows leontief_inverse) with
  | Some row_L =>
      map (fun j =>
             Np.sum (Np.column j
               (map (fun rw => map (fun x => x * snd rw) (snd (fst rw)))
                    (combine (Pd.rows encore_ds_direct) (weights_of row_L)))))
          (seq 0 (length (Pd.columns encore_ds_direct)))
  | None => zero_series (Pd.columns encore_ds_direct)
  end.

(** The dictionary [firm_row] built from these two Series. *)
Definition score_row (encore_ds_direct : Pd.DataFrame string)
    (leontief_inverse : Pd.DataFrame SectorKey) (cj : SectorKey) : FirmRow :=
  let ds_direct := direct_scores encore_ds_direct cj in
  let indirect_score := indirect_scores encore_ds_direct leontief_inverse cj in
  {| fr_country := fst cj;
     fr_sector := snd cj;
     fr_scores :=
       map (fun je => {| es := snd je;
                         es_direct := nth (fst je) ds_direct 0;
                         es_indirect := nth (fst je) indirect_score 0;
                         es_total := nth (fst je)
                                         (total_score ds_direct indirect_score) 0 |})
           (combine (seq 0 (length (Pd.columns encore_ds_direct)))
                    (Pd.columns encore_ds_direct)) |}.







(** ** Concrete tables used in the examples *)

Module Ex.

Definition DE_A : SectorKey := ("DE", "A")%string.
Definition FR_B : SectorKey := ("FR", "B")%string.
Definition IT_C : SectorKey := ("IT", "C")%string.

(** The direct intensity table of the specification's example. *)
Definition direct : list Intensity :=
  [mk_intensity DE_A (1 # 1000000) (3 # 1000000);
   mk_intensity FR_B (2 # 1000000) (5 # 1000000)].

(** The identity Leontief inverse on (DE,A), (FR,B). *)
Definition L_id : Pd.DataFrame SectorKey :=
  Pd.mk_frame [DE_A; FR_B] [(DE_A, [1; 0]); (FR_B, [0; 1])].

(** A 2 x 3 inverse: not square, and labelled (DE,A), (IT,C) on its rows. *)
Definition L_wide : Pd.DataFrame SectorKey :=
  Pd.mk_frame [DE_A; FR_B; IT_C] [(DE_A, [1; 0; 0]); (IT_C, [0; 1; 0])].

(** A 3 x 2 inverse: one row more than the direct table. *)
Definition L_tall : Pd.DataFrame SectorKey :=
  Pd.mk_frame [DE_A; FR_B] [(DE_A, [1; 0]); (FR_B, [0; 1]); (IT_C, [0; 0])].

Definition firm_info : list Firm :=
  [mk_firm "FIRM_0" "DE" "A"; mk_firm "FIRM_1" "IT" "C"].

(** A direct dependency table on (DE,A), (FR,B) with two services. *)
Definition encore : Pd.DataFrame string :=
  Pd.mk_frame ["pollination"; "flood_protection"]%string
              [(DE_A, [1 # 2; 1 # 4]); (FR_B, [1 # 3; 1])].

(** A Leontief inverse on the same SectorKeys in the same order. *)
Definition L_dep : Pd.DataFrame SectorKey :=
  Pd.mk_frame [DE_A; FR_B] [(DE_A, [3; 1]); (FR_B, [0; 0])].


Definition firms : list Firm :=
  [mk_firm "FIRM_0" "DE" "A"; mk_firm "FIRM_1" "IT" "C";
   mk_firm "FIRM_2" "DE" "A"; mk_firm "FIRM_3" "FR" "B"].

Definition loan_known : Loan := mk_loan "BANK_1" "FIRM_0" 1000000.
Definition loan_unknown_firm : Loan := mk_loan "BANK_0" "FIRM_9" 500000.
Definition loan_unmodelled_sector : Loan := mk_loan "BANK_1" "FIRM_1" 250000.

End Ex.

(** ** Further accessors and transformations of the inputs *)

(** The order of [groupby]'s labels: strings compared character by
    character. *)
Definition label_lt (a b : string) : Prop := String.compare a b = Lt.

(** A column of identifiers holds no value twice. *)
Fixpoint unique_labels (l : list string) : bool :=
  match l with
  | [] => true
  | x :: l' => negb (existsb (String.eqb x) l') && unique_labels l'
  end.

(** The SectorKey that [firm_info] gives to a firm identifier. *)
Definition sector_of (firm_info : list Firm) (id : string) : option SectorKey :=
  match find (fun f => String.eqb id (f_firm_id f)) firm_info with
  | Some f => Some (f_country f, f_sector f)
  | None => None
  end.

(** The total intensity per euro that [indirect_df] holds for a key, in
    one of its two columns; 0 when the key or the cell is missing. *)
Definition per_eur (col : Indirect -> option Q) (t : list Indirect)
    (k : option SectorKey) : Q :=
  match k with
  | Some k' =>
      match find (fun r => key_eqb k' (in_key r)) t with
      | Some r => match col r with Some q => q | None => 0 end
      | None => 0
      end
  | None => 0
  end.

(** What one loan adds to its bank's sum. *)
Definition loan_impact (col : Indirect -> option Q) (t : list Indirect)
    (firm_info : list Firm) (e : Loan) : Q :=
  per_eur col t (sector_of firm_info (l_firm_id e)) * l_loan_amount e.



(** Sign conditions on the inputs, as checks. *)
Definition nonneg_frame {C} (f : Pd.DataFrame C) : bool :=
  forallb (fun r => forallb (Qle_bool 0) (snd r)) (Pd.rows f).

Definition nonneg_direct (direct : list Intensity) : bool :=
  forallb (fun d => Qle_bool 0 (dv_msa_ghg_per_eur d)
                    && Qle_bool 0 (dv_msa_lu_per_eur d)) direct.

Definition nonneg_loans (loan_data : list Loan) : bool :=
  forallb (fun e => Qle_bool 0 (l_loan_amount e)) loan_data.

(** Every diagonal entry of the Leontief inverse is at least 1. *)
Definition diagonal_at_least_one (L : Pd.DataFrame SectorKey) : bool :=
  forallb (fun k => Qle_bool 1 (L_at L k k)) (Pd.index L).





(** ** Further concrete tables *)

Module Ex2.

(** The direct table of [Ex.direct] with its two labels exchanged. *)
Definition direct_relabelled : list Intensity :=
  [mk_intensity Ex.FR_B (1 # 1000000) (3 # 1000000);
   mk_intensity Ex.DE_A (2 # 1000000) (5 # 1000000)].


End Ex2.

(** * Properties *)

(** ** Comparisons *)

Lemma key_eqb_eq (a b : SectorKey) : key_eqb a b = true <-> a = b.
Proof.
  destruct a as [a1 a2], b as [b1 b2]. unfold key_eqb. simpl.
  rewrite andb_true_iff, !String.eqb_eq. split.
  - intros [-> ->]. reflexivity.
  - intros H. inversion H. auto.
Qed.

Lemma key_eqb_refl (a : SectorKey) : key_eqb a a = true.
Proof. apply key_eqb_eq. reflexivity. Qed.

Lemma key_eqb_neq (a b : SectorKey) : key_eqb a b = false <-> a <> b.
Proof.
  rewrite <- key_eqb_eq. destruct (key_eqb a b); split; congruence.
Qed.



(** ** Sums *)

Section Sums.

Context {A : Type}.

Lemma sum_app (l1 l2 : list Q) : Np.sum (l1 ++ l2) == Np.sum l1 + Np.sum l2.
Proof.
  induction l1 as [|x l1 IH]; simpl.
  - ring.
  - rewrite IH. ring.
Qed.

Lemma sum_map_ext (f g : A -> Q) (l : list A) :
  (forall x, In x l -> f x == g x) ->
  Np.sum (map f l) == Np.sum (map g l).
Proof.
  induction l as [|x l IH]; intros H; simpl.
  - reflexivity.
  - rewrite (H x (or_introl eq_refl)), IH.
    + reflexivity.
    + intros y Hy. apply H. right. exact Hy.
Qed.


Lemma sum_map_zero (l : list A) : Np.sum (map (fun _ => 0) l) == 0.
Proof.
  induction l as [|x l IH]; simpl.
  - reflexivity.
  - rewrite IH. ring.
Qed.

Lemma sum_map_plus (f g : A -> Q) (l : list A) :
  Np.sum (map (fun x => f x + g x) l) == Np.sum (map f l) + Np.sum (map g l).
Proof.
  induction l as [|x l IH]; simpl.
  - ring.
  - rewrite IH. ring.
Qed.


End Sums.

Lemma sum_perm (l1 l2 : list Q) : Permutation l1 l2 -> Np.sum l1 == Np.sum l2.
Proof.
  induction 1; simpl.
  - reflexivity.
  - rewrite IHPermutation. reflexivity.
  - ring.
  - rewrite IHPermutation1. exact IHPermutation2.
Qed.

(** The sum of a function that vanishes off one position of a range. *)
Lemma sum_delta (g : nat -> Q) (j s n : nat) :
  Np.sum (map (fun k => if Nat.eqb k j then g k else 0) (seq s n))
  == if (s <=? j)%nat && (j <? s + n)%nat then g j else 0.
Proof.
  revert s. induction n as [|n IH]; intros s.
  - simpl. destruct (Nat.leb_spec s j), (Nat.ltb_spec j (s + 0)); simpl;
      try reflexivity; lia.
  - cbn [seq map Np.sum fold_right]. fold (Np.sum).
    change (fold_right Qplus 0) with Np.sum. rewrite IH.
    destruct (Nat.eqb_spec s j), (Nat.leb_spec (S s) j), (Nat.leb_spec s j),
      (Nat.ltb_spec j (S s + n)), (Nat.ltb_spec j (s + S n));
      cbn [andb]; try lia; try ring.
    subst. ring.
Qed.

(** ** Inner products and the diagonal matrix *)

Lemma combine_map2 {A B C D} (f : A -> C) (g : B -> D) (l : list A) (l' : list B) :
  combine (map f l) (map g l')
  = map (fun xy => (f (fst xy), g (snd xy))) (combine l l').
Proof.
  revert l'. induction l as [|x l IH]; intros [|y l']; simpl; try reflexivity.
  rewrite IH. reflexivity.
Qed.

Lemma inner_as_range (a b : list Q) :
  length a = length b ->
  Np.inner a b
  == Np.sum (map (fun i => nth i a 0 * nth i b 0) (seq 0 (length b))).
Proof.
  unfold Np.inner. revert b.
  induction a as [|x a IH]; intros [|y b] Hlen; simpl in Hlen; try discriminate.
  - reflexivity.
  - cbn [combine map Np.sum fold_right length seq nth fst snd].
    change (fold_right Qplus 0) with Np.sum.
    rewrite <- seq_shift, map_map. cbn [nth].
    rewrite IH by lia. reflexivity.
Qed.

Lemma nth_map_seq (f : nat -> Q) (n j : nat) (d : Q) :
  (j < n)%nat -> nth j (map f (seq 0 n)) d = f j.
Proof.
  intros Hj.
  rewrite (nth_indep _ d (f 0%nat)) by (rewrite length_map, length_seq; exact Hj).
  rewrite (map_nth f), seq_nth by exact Hj. reflexivity.
Qed.

Lemma column_diag (v : list Q) (j : nat) :
  (j < length v)%nat ->
  Np.column j (Np.data (Np.diag v))
  = map (fun i => if Nat.eqb i j then nth i v 0 else 0) (seq 0 (length v)).
Proof.
  intros Hj. unfold Np.column, Np.diag. cbn [Np.data].
  rewrite map_map. apply map_ext. intros i.
  rewrite nth_map_seq by exact Hj. rewrite Nat.eqb_sym.
  destruct (Nat.eqb j i); reflexivity.
Qed.

Lemma inner_column_diag (a v : list Q) (j : nat) :
  length a = length v -> (j < length v)%nat ->
  Np.inner a (Np.column j (Np.data (Np.diag v))) == nth j a 0 * nth j v 0.
Proof.
  intros Hlen Hj. rewrite column_diag by exact Hj.
  rewrite inner_as_range by (rewrite length_map, length_seq; exact Hlen).
  rewrite length_map, length_seq.
  rewrite (sum_map_ext _ (fun i => if Nat.eqb i j then nth i a 0 * nth i v 0 else 0)).
  - rewrite sum_delta.
    destruct (Nat.leb_spec 0 j), (Nat.ltb_spec j (0 + length v)); cbn [andb];
      try lia. reflexivity.
  - intros i Hi. apply in_seq in Hi.
    rewrite nth_map_seq by lia.
    destruct (Nat.eqb i j); ring.
Qed.

(** Row [a] of the transposed inverse times [diag v], summed over its
    columns, is the inner product of [a] with [v]. *)
Lemma row_times_diag_sum (a v : list Q) :
  length a = length v ->
  Np.sum (map (fun j => Np.inner a (Np.column j (Np.data (Np.diag v))))
              (seq 0 (length v)))
  == Np.inner a v.
Proof.
  intros Hlen. rewrite (inner_as_range a v Hlen).
  apply sum_map_ext. intros j Hj. apply in_seq in Hj.
  apply inner_column_diag; [exact Hlen | lia].
Qed.

(** ** Lookups by label *)

Lemma find_unique {A} (kf : A -> SectorKey) (l : list A) (x : A) :
  unique_keys (map kf l) = true -> In x l ->
  find (fun y => key_eqb (kf y) (kf x)) l = Some x.
Proof.
  induction l as [|y l IH]; intros Hu Hin; simpl in *.
  - contradiction.
  - apply andb_true_iff in Hu. destruct Hu as [Hy Hu].
    destruct Hin as [-> | Hin].
    + rewrite key_eqb_refl. reflexivity.
    + destruct (key_eqb (kf y) (kf x)) eqn:E.
      * exfalso. apply key_eqb_eq in E. apply negb_true_iff in Hy.
        assert (existsb (key_eqb (kf y)) (map kf l) = true) as Hex.
        { apply existsb_exists. exists (kf x). split.
          - apply in_map. exact Hin.
          - apply key_eqb_eq. exact E. }
        congruence.
      * apply IH; assumption.
Qed.

Lemma find_absent {A} (kf : A -> SectorKey) (l : list A) (k : SectorKey) :
  ~ In k (map kf l) -> find (fun y => key_eqb (kf y) k) l = None.
Proof.
  induction l as [|y l IH]; intros Hn; simpl in *.
  - reflexivity.
  - destruct (key_eqb (kf y) k) eqn:E.
    + apply key_eqb_eq in E. exfalso. apply Hn. left. exact E.
    + apply IH. intros H. apply Hn. right. exact H.
Qed.

Lemma find_present {A} (kf : A -> SectorKey) (l : list A) (k : SectorKey) :
  In k (map kf l) -> exists x, find (fun y => key_eqb (kf y) k) l = Some x /\ kf x = k.
Proof.
  induction l as [|y l IH]; intros Hin; simpl in *.
  - contradiction.
  - destruct (key_eqb (kf y) k) eqn:E.
    + exists y. split; [reflexivity | apply key_eqb_eq; exact E].
    + destruct Hin as [H | H].
      * apply key_eqb_neq in E. contradiction.
      * apply IH. exact H.
Qed.

Lemma unique_keys_NoDup (l : list SectorKey) :
  unique_keys l = true <-> NoDup l.
Proof.
  induction l as [|k l IH]; simpl.
  - split; [constructor | reflexivity].
  - rewrite andb_true_iff, negb_true_iff, IH. split.
    + intros [Hk Hl]. constructor; [|exact Hl].
      intros Hin. assert (existsb (key_eqb k) l = true) as Hex.
      { apply existsb_exists. exists k. split; [exact Hin | apply key_eqb_refl]. }
      congruence.
    + intros H. inversion H as [|? ? Hk Hl]; subst. split; [|exact Hl].
      destruct (existsb (key_eqb k) l) eqn:E; [|reflexivity].
      apply existsb_exists in E. destruct E as [x [Hx Heq]].
      apply key_eqb_eq in Heq. subst x. contradiction.
Qed.

Lemma lookup_unique {V} (l : list (SectorKey * V)) (r : SectorKey * V) :
  unique_keys (map fst l) = true -> In r l -> Pd.lookup (fst r) l = Some (snd r).
Proof.
  intros Hu Hin. unfold Pd.lookup.
  rewrite (find_unique fst l r Hu Hin). reflexivity.
Qed.

Lemma direct_of_unique (p : Intensity -> Q) (direct : list Intensity) (d : Intensity) :
  unique_keys (map dv_key direct) = true -> In d direct ->
  direct_of p direct (dv_key d) = p d.
Proof.
  intros Hu Hin. unfold direct_of.
  rewrite (find_unique dv_key direct d Hu Hin). reflexivity.
Qed.

(** A Series built on the columns of [L], read back by label. *)
Lemma lookup_positioned {V} (S : nat -> V) (k : SectorKey) (jc : list (nat * SectorKey)) :
  Pd.lookup k (map (fun x => (snd x, S (fst x))) jc)
  = option_map (fun x => S (fst x)) (find (fun x => key_eqb (snd x) k) jc).
Proof.
  unfold Pd.lookup. induction jc as [|x jc IH]; simpl.
  - reflexivity.
  - destruct (key_eqb (snd x) k); [reflexivity | exact IH].
Qed.


Lemma aligned_combine {A B K} (f : A -> K) (g : B -> K) (l : list A) (l' : list B) a b :
  map f l = map g l' -> In (a, b) (combine l l') -> f a = g b.
Proof.
  revert l'. induction l as [|x l IH]; intros [|y l'] Heq Hin; simpl in *;
    try contradiction; try discriminate.
  inversion Heq. destruct Hin as [H | H].
  - inversion H; subst. assumption.
  - eapply IH; eassumption.
Qed.

Lemma map_snd_combine {A B} (l : list A) (l' : list B) :
  length l = length l' -> map snd (combine l l') = l'.
Proof.
  revert l'. induction l as [|x l IH]; intros [|y l'] H; simpl in *;
    try discriminate; try reflexivity.
  rewrite IH by lia. reflexivity.
Qed.


Lemma position_some (k : SectorKey) (l : list SectorKey) :
  In k l -> exists j, position k l = Some j /\ (j < length l)%nat.
Proof.
  intros Hin. unfold position.
  destruct (find_present snd (combine (seq 0 (length l)) l) k) as [x [Hx Hk]].
  - rewrite map_snd_combine by (rewrite length_seq; reflexivity). exact Hin.
  - rewrite Hx. exists (fst x). split; [reflexivity|].
    apply find_some in Hx. destruct Hx as [Hx _]. destruct x as [j c].
    apply in_combine_l in Hx. apply in_seq in Hx. simpl. lia.
Qed.

(** ** The propagation step *)

Lemma indirect_series_ok (L : Pd.DataFrame SectorKey) (v : list Q) :
  length (Pd.index L) = length v ->
  indirect_series L (Np.diag v)
  = inr (map (fun k => (k, option_map (propagated L v) (position k (Pd.columns L))))
             (Pd.index L)).
Proof.
  intros Hlen. unfold indirect_series, Pd.dot.
  cbn [Pd.T Pd.columns Pd.rows Np.diag Np.shape Np.data fst snd].
  rewrite Hlen, Nat.eqb_refl. unfold bind, ret. f_equal.
  unfold Pd.reindex. apply map_ext. intros k.
  unfold Pd.sum_axis1. rewrite !map_map. cbn [fst snd].
  rewrite (lookup_positioned (propagated L v)).
  unfold position. destruct (find _ _); reflexivity.
Qed.

Lemma indirect_series_error (L : Pd.DataFrame SectorKey) (v : list Q) :
  length (Pd.index L) <> length v ->
  indirect_series L (Np.diag v) = inl ValueError.
Proof.
  intros Hlen. unfold indirect_series, Pd.dot.
  cbn [Pd.T Pd.columns Pd.rows Np.diag Np.shape Np.data fst snd].
  apply Nat.eqb_neq in Hlen. rewrite Hlen. reflexivity.
Qed.

Lemma propagated_inner (L : Pd.DataFrame SectorKey) (v : list Q) (j : nat) :
  length (Pd.index L) = length v ->
  propagated L v j == Np.inner (Np.column j (Pd.values L)) v.
Proof.
  intros Hlen. unfold propagated. apply row_times_diag_sum.
  unfold Np.column, Pd.values. rewrite !length_map.
  unfold Pd.index in Hlen. rewrite length_map in Hlen. exact Hlen.
Qed.

(** The positional inner product read by label, when the rows of [L]
    carry the labels of the direct table in the same order. *)
Lemma inner_by_label (p : Intensity -> Q) (direct : list Intensity)
    (L : Pd.DataFrame SectorKey) (k : SectorKey) (j : nat) :
  Pd.index L = map dv_key direct ->
  unique_keys (map dv_key direct) = true ->
  position k (Pd.columns L) = Some j ->
  Np.inner (Np.column j (Pd.values L)) (map p direct)
  == total_formula p direct L k.
Proof.
  intros Hidx Hu Hpos. unfold total_formula, Np.inner, Np.column, Pd.values.
  rewrite map_map, combine_map2, !map_map. cbn [fst snd].
  assert (length (Pd.rows L) = length direct) as Hlen.
  { unfold Pd.index in Hidx. apply (f_equal (@length _)) in Hidx.
    rewrite !length_map in Hidx. exact Hidx. }
  rewrite <- (map_snd_combine (Pd.rows L) direct Hlen) at 2.
  rewrite map_map. apply sum_map_ext. intros [r d] Hin. cbn [fst snd].
  assert (fst r = dv_key d) as Hk.
  { unfold Pd.index in Hidx. eapply aligned_combine; eassumption. }
  rewrite (direct_of_unique p direct d Hu) by (eapply in_combine_r; eassumption).
  unfold L_at. rewrite <- Hk.
  rewrite (lookup_unique (Pd.rows L) r).
  - rewrite Hpos. reflexivity.
  - fold (Pd.index L). rewrite Hidx. exact Hu.
  - eapply in_combine_l; eassumption.
Qed.

(** Under the identity matrix the formula collapses to the direct value. *)
Lemma sum_indicator (f : SectorKey -> Q) (g : SectorKey -> Q) (k : SectorKey)
    (l : list SectorKey) :
  unique_keys l = true -> In k l ->
  (forall k', In k' l -> g k' == (if key_eqb k' k then 1 else 0)) ->
  Np.sum (map (fun k' => g k' * f k') l) == f k.
Proof.
  induction l as [|x l IH]; intros Hu Hin Hg; simpl in *.
  - contradiction.
  - apply andb_true_iff in Hu. destruct Hu as [Hx Hu].
    rewrite (Hg x (or_introl eq_refl)).
    destruct Hin as [-> | Hin].
    + rewrite key_eqb_refl.
      rewrite (sum_map_ext _ (fun _ => 0)).
      * rewrite sum_map_zero. ring.
      * intros y Hy. rewrite (Hg y (or_intror Hy)).
        destruct (key_eqb y k) eqn:E; [|ring].
        apply key_eqb_eq in E. subst y. apply negb_true_iff in Hx.
        assert (existsb (key_eqb k) l = true) as Hex.
        { apply existsb_exists. exists k. split; [exact Hy | apply key_eqb_refl]. }
        congruence.
    + destruct (key_eqb x k) eqn:E.
      * apply key_eqb_eq in E. subst x. apply negb_true_iff in Hx.
        assert (existsb (key_eqb k) l = true) as Hex.
        { apply existsb_exists. exists k. split; [exact Hin | apply key_eqb_refl]. }
        congruence.
      * rewrite IH; try assumption; [ring|].
        intros y Hy. apply Hg. right. exact Hy.
Qed.

Lemma is_identity_spec (L : Pd.DataFrame SectorKey) (r c : SectorKey) :
  is_identity L = true -> In r (Pd.index L) -> In c (Pd.columns L) ->
  L_at L r c == (if key_eqb r c then 1 else 0).
Proof.
  unfold is_identity. intros H Hr Hc.
  rewrite forallb_forall in H. specialize (H r Hr).
  rewrite forallb_forall in H. specialize (H c Hc).
  apply Qeq_bool_iff. exact H.
Qed.

Lemma total_formula_identity (p : Intensity -> Q) (direct : list Intensity)
    (L : Pd.DataFrame SectorKey) (k : SectorKey) :
  Pd.index L = map dv_key direct ->
  Pd.columns L = map dv_key direct ->
  unique_keys (map dv_key direct) = true ->
  is_identity L = true ->
  In k (map dv_key direct) ->
  total_formula p direct L k == direct_of p direct k.
Proof.
  intros Hidx Hcol Hu Hid Hk. unfold total_formula.
  apply (sum_indicator (direct_of p direct) (fun k' => L_at L k' k) k);
    try assumption.
  intros k' Hk'. apply is_identity_spec; [exact Hid | |].
  - rewrite Hidx. exact Hk'.
  - rewrite Hcol. exact Hk.
Qed.

Lemma combine_map_same {A B C} (f : A -> B) (g : A -> C) (l : list A) :
  combine (map f l) (map g l) = map (fun x => (f x, g x)) l.
Proof.
  induction l as [|x l IH]; simpl; [reflexivity | rewrite IH; reflexivity].
Qed.

Lemma indirect_df_ok (direct : list Intensity) (L : Pd.DataFrame SectorKey) :
  length (Pd.index L) = length direct ->
  indirect_df direct L
  = inr (map (fun k =>
           {| in_key := k;
              in_msa_ghg_total_per_eur :=
                option_map (propagated L (map dv_msa_ghg_per_eur direct))
                           (position k (Pd.columns L));
              in_msa_lu_total_per_eur :=
                option_map (propagated L (map dv_msa_lu_per_eur direct))
                           (position k (Pd.columns L)) |})
           (Pd.index L)).
Proof.
  intros Hlen. unfold indirect_df, F_ghg, F_lu.
  rewrite !indirect_series_ok by (rewrite length_map; exact Hlen).
  unfold bind, ret. f_equal.
  rewrite combine_map_same, map_map. reflexivity.
Qed.

Lemma indirect_df_error (direct : list Intensity) (L : Pd.DataFrame SectorKey) :
  length (Pd.index L) <> length direct ->
  indirect_df direct L = inl ValueError.
Proof.
  intros Hlen. unfold indirect_df, F_ghg.
  rewrite indirect_series_error by (rewrite length_map; exact Hlen).
  reflexivity.
Qed.

(** ** C1: the propagated intensity *)

(** C1. When the Leontief inverse and the direct intensity table carry the
    same SectorKeys in the same order (unique labels), the propagation
    returns one row per SectorKey [k], in that order, and for each pressure
    the total intensity of [k] is the sum over [k'] of
    [L[k', k] * direct[k']]; if moreover [L] is the identity matrix, the
    total intensity of every SectorKey is its direct intensity. *)
Theorem propagate_intensity_row_sums
    (direct : list Intensity) (L : Pd.DataFrame SectorKey) :
  Pd.index L = map dv_key direct ->
  Pd.columns L = map dv_key direct ->
  unique_keys (map dv_key direct) = true ->
  exists t,
    indirect_df direct L = inr t
    /\ map in_key t = map dv_key direct
    /\ (forall r, In r t ->
          exists g l,
            in_msa_ghg_total_per_eur r = Some g
            /\ in_msa_lu_total_per_eur r = Some l
            /\ g == total_formula dv_msa_ghg_per_eur direct L (in_key r)
            /\ l == total_formula dv_msa_lu_per_eur direct L (in_key r)
            /\ (is_identity L = true ->
                g == direct_of dv_msa_ghg_per_eur direct (in_key r)
                /\ l == direct_of dv_msa_lu_per_eur direct (in_key r))).
Proof.
  intros Hidx Hcol Hu.
  assert (length (Pd.index L) = length direct) as Hlen.
  { rewrite Hidx, length_map. reflexivity. }
  eexists. split; [apply indirect_df_ok; exact Hlen|].
  split.
  - rewrite map_map. cbn [in_key]. rewrite map_id. exact Hidx.
  - intros r Hr. apply in_map_iff in Hr. destruct Hr as [k [<- Hk]].
    cbn [in_key in_msa_ghg_total_per_eur in_msa_lu_total_per_eur].
    rewrite Hidx in Hk.
    destruct (position_some k (Pd.columns L)) as [j [Hj _]].
    { rewrite Hcol. exact Hk. }
    rewrite Hj. cbn [option_map].
    assert (forall p, propagated L (map p direct) j == total_formula p direct L k)
      as Hp.
    { intros p. rewrite propagated_inner by (rewrite length_map; exact Hlen).
      apply inner_by_label; assumption. }
    do 2 eexists. split; [reflexivity|]. split; [reflexivity|].
    split; [apply Hp|]. split; [apply Hp|].
    intros Hid. split; rewrite Hp; apply total_formula_identity; assumption.
Qed.

(** The end-to-end example of the specification: (DE,A) with 1e-6 and
    (FR,B) with 2e-6 under the identity matrix. *)
Lemma propagate_intensity_row_sums_witness :
  exists t,
    indirect_df Ex.direct Ex.L_id = inr t
    /\ map in_key t = [Ex.DE_A; Ex.FR_B]
    /\ forall r, In r t ->
         exists g l,
           in_msa_ghg_total_per_eur r = Some g
           /\ in_msa_lu_total_per_eur r = Some l
           /\ (in_key r = Ex.DE_A -> g == 1 # 1000000)
           /\ (in_key r = Ex.FR_B -> g == 2 # 1000000).
Proof.
  destruct (propagate_intensity_row_sums Ex.direct Ex.L_id eq_refl eq_refl eq_refl)
    as [t [Ht [Hk Hrows]]].
  exists t. split; [exact Ht|]. split; [exact Hk|].
  intros r Hr. destruct (Hrows r Hr) as [g [l [Hg [Hl [_ [_ Hid]]]]]].
  destruct (Hid eq_refl) as [Hgd _].
  exists g, l. split; [exact Hg|]. split; [exact Hl|].
  split; intros E; rewrite E in Hgd; exact Hgd.
Defined.

(** ** C6: linearity of the propagation *)





(** ** C3: what the propagation checks *)

Lemma position_none (k : SectorKey) (l : list SectorKey) :
  position k l = None <-> ~ In k l.
Proof.
  split.
  - intros Hp Hin. destruct (position_some k l Hin) as [j [Hj _]]. congruence.
  - intros Hn. unfold position. rewrite (find_absent snd); [reflexivity|].
    rewrite map_snd_combine by (rewrite length_seq; reflexivity). exact Hn.
Qed.

(** C3, counterexample.  A 2 x 3 Leontief inverse whose row labels are
    (DE,A), (IT,C) against a direct table on (DE,A), (FR,B): the inverse is
    not square and the key universes differ, yet the propagation and the
    whole footprint return a result. *)
Lemma shape_mismatch_not_raised :
  length (Pd.columns Ex.L_wide) <> length (Pd.index Ex.L_wide)
  /\ Pd.index Ex.L_wide <> map dv_key Ex.direct
  /\ indirect_df Ex.direct Ex.L_wide
     = inr [mk_indirect Ex.DE_A (Some 0.000001000000) (Some 0.000003000000);
            mk_indirect Ex.IT_C (Some 0.000000000000) (Some 0.000000000000)]
  /\ compute_bank_biodiversity_footprint
       [Ex.loan_known] Ex.firm_info Ex.direct Ex.L_wide 0.0000437
     = inr [mk_bank_row "BANK_1" 1.000000000000 3.000000000000
                        4.000000000000000000000000].
Proof.
  split; [simpl; lia|]. split; [discriminate|]. split; reflexivity.
Qed.

(** C3, as amended.  With unique column labels, the propagation fails
    exactly when the Leontief inverse has not as many rows as the direct
    intensity table; the failure is the ValueError of the matrix product
    and aborts the whole computation.  Otherwise it returns one row per
    row label of the inverse, whose totals are missing exactly when that
    label is not among the inverse's columns. *)
Theorem propagate_intensity_shape_check
    (direct : list Intensity) (L : Pd.DataFrame SectorKey) :
  unique_keys (Pd.columns L) = true ->
  (indirect_df direct L = inl ValueError
   <-> length (Pd.index L) <> length direct)
  /\ (length (Pd.index L) <> length direct ->
      forall loan_data firm_info msa_ghg_factor,
        compute_bank_biodiversity_footprint
          loan_data firm_info direct L msa_ghg_factor = inl ValueError)
  /\ (length (Pd.index L) = length direct ->
      exists t,
        indirect_df direct L = inr t
        /\ map in_key t = Pd.index L
        /\ forall r, In r t ->
             (in_msa_ghg_total_per_eur r = None <-> ~ In (in_key r) (Pd.columns L))
             /\ (in_msa_lu_total_per_eur r = None <-> ~ In (in_key r) (Pd.columns L))).
Proof.
  intros _. split; [|split].
  - split.
    + intros H Hlen. rewrite (indirect_df_ok direct L Hlen) in H. discriminate.
    + apply indirect_df_error.
  - intros Hlen loan_data firm_info f. unfold compute_bank_biodiversity_footprint.
    rewrite (indirect_df_error direct L Hlen). reflexivity.
  - intros Hlen. eexists. split; [apply indirect_df_ok; exact Hlen|]. split.
    + rewrite map_map. cbn [in_key]. apply map_id.
    + intros r Hr. apply in_map_iff in Hr. destruct Hr as [k [<- _]].
      cbn [in_key in_msa_ghg_total_per_eur in_msa_lu_total_per_eur].
      rewrite <- position_none.
      destruct (position k (Pd.columns L)); cbn [option_map];
        split; split; congruence.
Qed.

Lemma propagate_intensity_shape_check_witness :
  (indirect_df Ex.direct Ex.L_tall = inl ValueError
   <-> length (Pd.index Ex.L_tall) <> length Ex.direct)
  /\ (length (Pd.index Ex.L_tall) <> length Ex.direct ->
      forall loan_data firm_info msa_ghg_factor,
        compute_bank_biodiversity_footprint
          loan_data firm_info Ex.direct Ex.L_tall msa_ghg_factor = inl ValueError)
  /\ (length (Pd.index Ex.L_tall) = length Ex.direct ->
      exists t,
        indirect_df Ex.direct Ex.L_tall = inr t
        /\ map in_key t = Pd.index Ex.L_tall
        /\ forall r, In r t ->
             (in_msa_ghg_total_per_eur r = None
              <-> ~ In (in_key r) (Pd.columns Ex.L_tall))
             /\ (in_msa_lu_total_per_eur r = None
                 <-> ~ In (in_key r) (Pd.columns Ex.L_tall))).
Proof.
  exact (propagate_intensity_shape_check Ex.direct Ex.L_tall eq_refl).
Defined.

(** ** Left joins *)

Lemma merge_left_app {A B K} (eqb : K -> K -> bool) (kl : A -> option K)
    (kr : B -> K) (l1 l2 : list A) (right : list B) :
  Pd.merge_left eqb kl kr (l1 ++ l2) right
  = Pd.merge_left eqb kl kr l1 right ++ Pd.merge_left eqb kl kr l2 right.
Proof. unfold Pd.merge_left. apply flat_map_app. Qed.

Lemma merge_left_perm {A B K} (eqb : K -> K -> bool) (kl : A -> option K)
    (kr : B -> K) (l1 l2 : list A) (right : list B) :
  Permutation l1 l2 ->
  Permutation (Pd.merge_left eqb kl kr l1 right) (Pd.merge_left eqb kl kr l2 right).
Proof. unfold Pd.merge_left. apply Permutation_flat_map. Qed.

Lemma merge_left_no_match {A B K} (eqb : K -> K -> bool) (kl : A -> option K)
    (kr : B -> K) (a : A) (right : list B) :
  (forall k b, kl a = Some k -> In b right -> eqb k (kr b) = false) ->
  Pd.merge_left eqb kl kr [a] right = [(a, None)].
Proof.
  intros H. unfold Pd.merge_left. cbn [flat_map]. rewrite app_nil_r.
  destruct (kl a) as [k|]; [|reflexivity].
  replace (filter (fun b => eqb k (kr b)) right) with (@nil B); [reflexivity|].
  symmetry. induction right as [|b right IH]; [reflexivity|]. simpl.
  rewrite (H k b eq_refl (or_introl eq_refl)). apply IH.
  intros k' b' Hk Hb. apply (H k' b' Hk). right. exact Hb.
Qed.

Lemma merge_left_each {A B K} (eqb : K -> K -> bool) (kl : A -> option K)
    (kr : B -> K) (l : list A) (right : list B) :
  (forall a, In a l -> Pd.merge_left eqb kl kr [a] right = [(a, None)]) ->
  Pd.merge_left eqb kl kr l right = map (fun a => (a, None)) l.
Proof.
  induction l as [|a l IH]; intros H; [reflexivity|].
  change (a :: l) with ([a] ++ l). rewrite merge_left_app, map_app.
  rewrite (H a (or_introl eq_refl)). cbn [map]. f_equal.
  apply IH. intros a' Ha'. apply H. right. exact Ha'.
Qed.

Lemma df_app (l1 l2 : list Loan) (firm_info : list Firm)
    (direct : list Intensity) (indirect : list Indirect) :
  df (l1 ++ l2) firm_info direct indirect
  = df l1 firm_info direct indirect ++ df l2 firm_info direct indirect.
Proof.
  unfold df. rewrite !merge_left_app, map_app. reflexivity.
Qed.

Lemma df_perm (l1 l2 : list Loan) (firm_info : list Firm)
    (direct : list Intensity) (indirect : list Indirect) :
  Permutation l1 l2 ->
  Permutation (df l1 firm_info direct indirect) (df l2 firm_info direct indirect).
Proof.
  intros H. unfold df. apply Permutation_map.
  do 3 apply merge_left_perm. exact H.
Qed.

(** A loan whose firm is unknown yields the all-missing row. *)
Lemma df_unknown_firm (e : Loan) (firm_info : list Firm)
    (direct : list Intensity) (indirect : list Indirect) :
  (forall f, In f firm_info -> f_firm_id f <> l_firm_id e) ->
  df [e] firm_info direct indirect = [missing_row e].
Proof.
  intros H. unfold df.
  rewrite (merge_left_no_match String.eqb _ f_firm_id e firm_info).
  - rewrite (merge_left_no_match key_eqb) by (cbn; discriminate).
    rewrite (merge_left_no_match key_eqb) by (cbn; discriminate).
    reflexivity.
  - intros k f Hk Hf. inversion Hk; subst k.
    apply String.eqb_neq. intros E. apply (H f Hf). symmetry. exact E.
Qed.

(** A loan whose firm is known but whose SectorKey is in neither intensity
    table yields rows with a key and missing intensities. *)
Lemma df_unmodelled_sector (e : Loan) (firm_info : list Firm)
    (direct : list Intensity) (indirect : list Indirect) :
  (exists f, In f firm_info /\ f_firm_id f = l_firm_id e) ->
  (forall f, In f firm_info -> f_firm_id f = l_firm_id e ->
     ~ In (f_country f, f_sector f) (map dv_key direct)
     /\ ~ In (f_country f, f_sector f) (map in_key indirect)) ->
  df [e] firm_info direct indirect
  = map (unmodelled_row e)
        (filter (fun f => String.eqb (l_firm_id e) (f_firm_id f)) firm_info).
Proof.
  intros [f0 [Hf0 Hid0]] Habs. unfold df.
  set (fs := filter (fun f => String.eqb (l_firm_id e) (f_firm_id f)) firm_info).
  assert (Pd.merge_left String.eqb (fun l => Some (l_firm_id l)) f_firm_id
            [e] firm_info = map (fun f => (e, Some f)) fs) as H1.
  { unfold Pd.merge_left. cbn [flat_map]. rewrite app_nil_r. fold fs.
    assert (In f0 fs) as Hin.
    { apply filter_In. split; [exact Hf0|]. apply String.eqb_eq. congruence. }
    destruct fs; [contradiction | reflexivity]. }
  rewrite H1.
  assert (forall f, In f fs ->
            ~ In (f_country f, f_sector f) (map dv_key direct)
            /\ ~ In (f_country f, f_sector f) (map in_key indirect)) as Hfs.
  { intros f Hf. apply filter_In in Hf. destruct Hf as [Hf E].
    apply String.eqb_eq in E. apply Habs; congruence. }
  rewrite (merge_left_each key_eqb _ dv_key (map (fun f => (e, Some f)) fs)).
  - rewrite merge_left_each.
    + rewrite !map_map. apply map_ext. intros f. reflexivity.
    + intros a Ha. apply in_map_iff in Ha. destruct Ha as [a' [<- Ha']].
      apply in_map_iff in Ha'. destruct Ha' as [f [<- Hf]].
      apply merge_left_no_match. cbn. intros k b Hk Hb. inversion Hk; subst k.
      apply key_eqb_neq. intros E. apply (proj2 (Hfs f Hf)).
      rewrite E. apply in_map. exact Hb.
  - intros a Ha. apply in_map_iff in Ha. destruct Ha as [f [<- Hf]].
    apply merge_left_no_match. cbn. intros k b Hk Hb. inversion Hk; subst k.
    apply key_eqb_neq. intros E. apply (proj1 (Hfs f Hf)).
    rewrite E. apply in_map. exact Hb.
Qed.

(** ** Grouping and sums by bank *)

Lemma insert_label_In (b x : string) (l : list string) :
  In x (Pd.insert_label b l) <-> x = b \/ In x l.
Proof.
  induction l as [|y l IH]; simpl.
  - intuition.
  - destruct (String.compare b y) eqn:E; simpl.
    + apply String.compare_eq_iff in E. subst y. intuition.
    + intuition.
    + rewrite IH. intuition.
Qed.

Lemma group_labels_In (b : string) (bs : list string) :
  In b (Pd.group_labels bs) <-> In b bs.
Proof.
  unfold Pd.group_labels. induction bs as [|x bs IH]; simpl.
  - reflexivity.
  - rewrite insert_label_In, IH. intuition.
Qed.

Lemma bank_fp_banks (rows : list Row) :
  map b_bank_id (bank_fp rows) = Pd.group_labels (map bank_id rows).
Proof. unfold bank_fp. rewrite map_map. cbn [b_bank_id]. apply map_id. Qed.

Lemma find_label (b : string) (l : list string) :
  find (fun x => String.eqb x b) l = if in_dec string_dec b l then Some b else None.
Proof.
  induction l as [|x l IH]; simpl.
  - reflexivity.
  - destruct (String.eqb_spec x b) as [-> | Hne].
    + destruct (string_dec b b); [|congruence].
      destruct (in_dec string_dec b l); reflexivity.
    + rewrite IH. destruct (string_dec x b); [contradiction|].
      destruct (in_dec string_dec b l); reflexivity.
Qed.

Lemma find_mapped {A B} (p : B -> bool) (f : A -> B) (l : list A) :
  find p (map f l) = option_map f (find (fun x => p (f x)) l).
Proof.
  induction l as [|x l IH]; simpl; [reflexivity|].
  destruct (p (f x)); [reflexivity | exact IH].
Qed.

Lemma filter_bank_absent (b : string) (rows : list Row) :
  ~ In b (map bank_id rows) ->
  filter (fun r => String.eqb (bank_id r) b) rows = [].
Proof.
  induction rows as [|r rows IH]; intros H; simpl in *; [reflexivity|].
  destruct (String.eqb_spec (bank_id r) b) as [E | E].
  - exfalso. apply H. left. exact E.
  - apply IH. intros Hin. apply H. right. exact Hin.
Qed.

(** What [bank_fp] reports for a bank is the sum, missing cells skipped,
    over the rows of that bank. *)
Lemma bank_total_ghg (rows : list Row) (b : string) :
  bank_total b_msa_ghg_total (bank_fp rows) b
  = Pd.sum_skipna (map msa_ghg_total
                       (filter (fun r => String.eqb (bank_id r) b) rows)).
Proof.
  unfold bank_total, bank_fp. rewrite find_mapped. cbn [b_bank_id].
  rewrite find_label.
  destruct (in_dec string_dec b (Pd.group_labels (map bank_id rows))) as [H | H].
  - reflexivity.
  - rewrite group_labels_In in H. rewrite (filter_bank_absent b rows H).
    reflexivity.
Qed.

Lemma bank_total_lu (rows : list Row) (b : string) :
  bank_total b_msa_lu_total (bank_fp rows) b
  = Pd.sum_skipna (map msa_lu_total
                       (filter (fun r => String.eqb (bank_id r) b) rows)).
Proof.
  unfold bank_total, bank_fp. rewrite find_mapped. cbn [b_bank_id].
  rewrite find_label.
  destruct (in_dec string_dec b (Pd.group_labels (map bank_id rows))) as [H | H].
  - reflexivity.
  - rewrite group_labels_In in H. rewrite (filter_bank_absent b rows H).
    reflexivity.
Qed.

Lemma bank_total_sum (rows : list Row) (b : string) :
  bank_total b_msa_total (bank_fp rows) b
  == bank_total b_msa_ghg_total (bank_fp rows) b
     + bank_total b_msa_lu_total (bank_fp rows) b.
Proof.
  unfold bank_total, bank_fp. rewrite find_mapped. cbn [b_bank_id].
  destruct (find _ _); cbn [option_map b_msa_total b_msa_ghg_total b_msa_lu_total].
  - reflexivity.
  - ring.
Qed.

Lemma sum_skipna_app (c1 c2 : list (option Q)) :
  Pd.sum_skipna (c1 ++ c2) == Pd.sum_skipna c1 + Pd.sum_skipna c2.
Proof. unfold Pd.sum_skipna. rewrite map_app. apply sum_app. Qed.

Lemma sum_skipna_perm (c1 c2 : list (option Q)) :
  Permutation c1 c2 -> Pd.sum_skipna c1 == Pd.sum_skipna c2.
Proof.
  intros H. unfold Pd.sum_skipna. apply sum_perm. apply Permutation_map. exact H.
Qed.

Lemma filter_perm {A} (p : A -> bool) (l1 l2 : list A) :
  Permutation l1 l2 -> Permutation (filter p l1) (filter p l2).
Proof.
  induction 1; simpl.
  - constructor.
  - destruct (p x); [constructor|]; assumption.
  - destruct (p x), (p y); try reflexivity. constructor.
  - etransitivity; eassumption.
Qed.

Lemma group_sum_perm (col : Row -> option Q) (b : string) (r1 r2 : list Row) :
  Permutation r1 r2 ->
  Pd.sum_skipna (map col (filter (fun r => String.eqb (bank_id r) b) r1))
  == Pd.sum_skipna (map col (filter (fun r => String.eqb (bank_id r) b) r2)).
Proof.
  intros H. apply sum_skipna_perm, Permutation_map, filter_perm. exact H.
Qed.

Lemma group_sum_app (col : Row -> option Q) (b : string) (r1 r2 : list Row) :
  Pd.sum_skipna (map col (filter (fun r => String.eqb (bank_id r) b) (r1 ++ r2)))
  == Pd.sum_skipna (map col (filter (fun r => String.eqb (bank_id r) b) r1))
     + Pd.sum_skipna (map col (filter (fun r => String.eqb (bank_id r) b) r2)).
Proof. rewrite filter_app, map_app. apply sum_skipna_app. Qed.

Lemma merge_left_In_fst {A B K} (eqb : K -> K -> bool) (kl : A -> option K)
    (kr : B -> K) (l : list A) (right : list B) (x : A * option B) :
  In x (Pd.merge_left eqb kl kr l right) -> In (fst x) l.
Proof.
  unfold Pd.merge_left. intros H. apply in_flat_map in H.
  destruct H as [a [Ha Hx]].
  assert (fst x = a) as ->; [|exact Ha].
  destruct (kl a) as [k|].
  - destruct (filter _ right) as [|b bs].
    + destruct Hx as [<- | []]. reflexivity.
    + change (In x (map (fun b0 => (a, Some b0)) (b :: bs))) in Hx.
      apply in_map_iff in Hx. destruct Hx as [b' [<- _]]. reflexivity.
  - destruct Hx as [<- | []]. reflexivity.
Qed.

Lemma merge_left_covers {A B K} (eqb : K -> K -> bool) (kl : A -> option K)
    (kr : B -> K) (l : list A) (right : list B) (a : A) :
  In a l -> exists o, In (a, o) (Pd.merge_left eqb kl kr l right).
Proof.
  unfold Pd.merge_left. intros H.
  assert (exists o, In (a, o)
            match kl a with
            | Some k =>
                match filter (fun b => eqb k (kr b)) right with
                | [] => [(a, None)]
                | b :: bs => map (fun b0 => (a, Some b0)) (b :: bs)
                end
            | None => [(a, None)]
            end) as [o Ho].
  { destruct (kl a) as [k|].
    - destruct (filter _ right) as [|b bs].
      + exists None. left. reflexivity.
      + exists (Some b). left. reflexivity.
    - exists None. left. reflexivity. }
  exists o. apply in_flat_map. exists a. split; assumption.
Qed.

Lemma df_banks (loans : list Loan) (firm_info : list Firm)
    (direct : list Intensity) (indirect : list Indirect) (b : string) :
  In b (map bank_id (df loans firm_info direct indirect))
  <-> In b (map l_bank_id loans).
Proof.
  unfold df. rewrite map_map. cbn [bank_id]. rewrite !in_map_iff. split.
  - intros [r [<- Hr]]. exists (fst (fst (fst r))). split; [reflexivity|].
    do 3 apply merge_left_In_fst in Hr. exact Hr.
  - intros [e [<- He]].
    destruct (merge_left_covers String.eqb (fun l => Some (l_firm_id l)) f_firm_id
                loans firm_info e He) as [o1 H1].
    eapply merge_left_covers in H1. destruct H1 as [o2 H2].
    eapply merge_left_covers in H2. destruct H2 as [o3 H3].
    eexists. split; [|exact H3]. reflexivity.
Qed.

Lemma compute_ok (direct : list Intensity) (L : Pd.DataFrame SectorKey) :
  length (Pd.index L) = length direct ->
  exists t,
    indirect_df direct L = inr t
    /\ map in_key t = Pd.index L
    /\ forall loan_data firm_info msa_ghg_factor,
         compute_bank_biodiversity_footprint
           loan_data firm_info direct L msa_ghg_factor
         = inr (bank_fp (df loan_data firm_info direct t)).
Proof.
  intros Hlen. eexists. split; [apply indirect_df_ok; exact Hlen|]. split.
  - rewrite map_map. cbn [in_key]. apply map_id.
  - intros loan_data firm_info f. unfold compute_bank_biodiversity_footprint.
    rewrite (indirect_df_ok direct L Hlen). reflexivity.
Qed.

Lemma group_sum_missing (col : Row -> option Q) (b : string) (X : list Row) :
  (forall r, In r X -> col r = None) ->
  Pd.sum_skipna (map col (filter (fun r => String.eqb (bank_id r) b) X)) == 0.
Proof.
  intros H. unfold Pd.sum_skipna. rewrite map_map.
  rewrite (sum_map_ext _ (fun _ => 0)); [apply sum_map_zero|].
  intros r Hr. apply filter_In in Hr. rewrite (H r (proj1 Hr)). reflexivity.
Qed.

(** Rows whose impacts are missing add nothing to any bank's sums. *)
Lemma bank_totals_skip (rows1 X rows2 : list Row) (b : string) :
  (forall r, In r X -> msa_ghg_total r = None /\ msa_lu_total r = None) ->
  bank_total b_msa_ghg_total (bank_fp (rows1 ++ X ++ rows2)) b
  == bank_total b_msa_ghg_total (bank_fp (rows1 ++ rows2)) b
  /\ bank_total b_msa_lu_total (bank_fp (rows1 ++ X ++ rows2)) b
     == bank_total b_msa_lu_total (bank_fp (rows1 ++ rows2)) b
  /\ bank_total b_msa_total (bank_fp (rows1 ++ X ++ rows2)) b
     == bank_total b_msa_total (bank_fp (rows1 ++ rows2)) b.
Proof.
  intros H.
  assert (bank_total b_msa_ghg_total (bank_fp (rows1 ++ X ++ rows2)) b
          == bank_total b_msa_ghg_total (bank_fp (rows1 ++ rows2)) b) as Hg.
  { rewrite !bank_total_ghg, !group_sum_app.
    rewrite (group_sum_missing msa_ghg_total b X) by (intros r Hr; apply H; exact Hr).
    ring. }
  assert (bank_total b_msa_lu_total (bank_fp (rows1 ++ X ++ rows2)) b
          == bank_total b_msa_lu_total (bank_fp (rows1 ++ rows2)) b) as Hl.
  { rewrite !bank_total_lu, !group_sum_app.
    rewrite (group_sum_missing msa_lu_total b X) by (intros r Hr; apply H; exact Hr).
    ring. }
  split; [exact Hg|]. split; [exact Hl|].
  rewrite !bank_total_sum, Hg, Hl. reflexivity.
Qed.

(** ** C7: additivity of the aggregate *)

(** C7. For exposure tables [A] and [B] and any table [U] holding exactly
    the rows of both, over the same counterparty attributes and intensity
    tables: either the propagation fails and the three footprints fail
    alike, or the footprint of [U] reports a bank exactly when the
    footprint of [A] or of [B] does, and per bank and per pressure (and for
    the grand total) its value is the sum of the values for [A] and for
    [B], a bank without a row counting for 0. *)
Theorem aggregate_additive
    (A B U : list Loan) (firm_info : list Firm) (direct : list Intensity)
    (L : Pd.DataFrame SectorKey) (msa_ghg_factor : Q) :
  Permutation U (A ++ B) ->
  (length (Pd.index L) <> length direct
   /\ compute_bank_biodiversity_footprint U firm_info direct L msa_ghg_factor
      = inl ValueError
   /\ compute_bank_biodiversity_footprint A firm_info direct L msa_ghg_factor
      = inl ValueError
   /\ compute_bank_biodiversity_footprint B firm_info direct L msa_ghg_factor
      = inl ValueError)
  \/ exists fpU fpA fpB,
    compute_bank_biodiversity_footprint U firm_info direct L msa_ghg_factor = inr fpU
    /\ compute_bank_biodiversity_footprint A firm_info direct L msa_ghg_factor = inr fpA
    /\ compute_bank_biodiversity_footprint B firm_info direct L msa_ghg_factor = inr fpB
    /\ (forall b, In b (map b_bank_id fpU)
                  <-> In b (map b_bank_id fpA) \/ In b (map b_bank_id fpB))
    /\ (forall b,
          bank_total b_msa_ghg_total fpU b
          == bank_total b_msa_ghg_total fpA b + bank_total b_msa_ghg_total fpB b
          /\ bank_total b_msa_lu_total fpU b
             == bank_total b_msa_lu_total fpA b + bank_total b_msa_lu_total fpB b
          /\ bank_total b_msa_total fpU b
             == bank_total b_msa_total fpA b + bank_total b_msa_total fpB b).
Proof.
  intros Hperm.
  destruct (Nat.eq_dec (length (Pd.index L)) (length direct)) as [Hlen | Hlen].
  2: { left. split; [exact Hlen|].
       unfold compute_bank_biodiversity_footprint.
       rewrite (indirect_df_error direct L Hlen). repeat split. }
  right. destruct (compute_ok direct L Hlen) as [t [_ [_ Hc]]].
  do 3 eexists. split; [apply Hc|]. split; [apply Hc|]. split; [apply Hc|].
  pose proof (df_perm U (A ++ B) firm_info direct t Hperm) as Hdf.
  rewrite df_app in Hdf.
  split.
  - intros b. rewrite !bank_fp_banks, !group_labels_In, !df_banks.
    rewrite <- in_app_iff, <- map_app. split; apply Permutation_in;
      apply Permutation_map; [exact Hperm | symmetry; exact Hperm].
  - intros b.
    assert (bank_total b_msa_ghg_total (bank_fp (df U firm_info direct t)) b
            == bank_total b_msa_ghg_total (bank_fp (df A firm_info direct t)) b
               + bank_total b_msa_ghg_total (bank_fp (df B firm_info direct t)) b)
      as Hg.
    { rewrite !bank_total_ghg, (group_sum_perm _ b _ _ Hdf). apply group_sum_app. }
    assert (bank_total b_msa_lu_total (bank_fp (df U firm_info direct t)) b
            == bank_total b_msa_lu_total (bank_fp (df A firm_info direct t)) b
               + bank_total b_msa_lu_total (bank_fp (df B firm_info direct t)) b)
      as Hl.
    { rewrite !bank_total_lu, (group_sum_perm _ b _ _ Hdf). apply group_sum_app. }
    split; [exact Hg|]. split; [exact Hl|].
    rewrite !bank_total_sum, Hg, Hl. ring.
Qed.

Lemma aggregate_additive_witness :
  exists fpU fpA fpB,
    compute_bank_biodiversity_footprint
      [Ex.loan_unmodelled_sector; Ex.loan_known; Ex.loan_unknown_firm]
      Ex.firm_info Ex.direct Ex.L_id 0.0000437 = inr fpU
    /\ compute_bank_biodiversity_footprint
         [Ex.loan_known] Ex.firm_info Ex.direct Ex.L_id 0.0000437 = inr fpA
    /\ compute_bank_biodiversity_footprint
         [Ex.loan_unmodelled_sector; Ex.loan_unknown_firm]
         Ex.firm_info Ex.direct Ex.L_id 0.0000437 = inr fpB
    /\ (forall b, In b (map b_bank_id fpU)
                  <-> In b (map b_bank_id fpA) \/ In b (map b_bank_id fpB))
    /\ (forall b,
          bank_total b_msa_ghg_total fpU b
          == bank_total b_msa_ghg_total fpA b + bank_total b_msa_ghg_total fpB b
          /\ bank_total b_msa_lu_total fpU b
             == bank_total b_msa_lu_total fpA b + bank_total b_msa_lu_total fpB b
          /\ bank_total b_msa_total fpU b
             == bank_total b_msa_total fpA b + bank_total b_msa_total fpB b).
Proof.
  destruct (aggregate_additive
              [Ex.loan_known] [Ex.loan_unmodelled_sector; Ex.loan_unknown_firm]
              [Ex.loan_unmodelled_sector; Ex.loan_known; Ex.loan_unknown_firm]
              Ex.firm_info Ex.direct Ex.L_id 0.0000437
              (perm_swap _ _ _)) as [[Hne _] | H].
  - exfalso. apply Hne. reflexivity.
  - exact H.
Defined.

(** ** C4: an exposure to an unknown counterparty *)

(** C4, counterexample.  FIRM_9 is not in the attribute table; the
    footprint of a loan to it is a result, a row for BANK_0 with zero
    sums, and not an error. *)
Lemma unknown_counterparty_not_raised :
  (forall f, In f Ex.firm_info -> f_firm_id f <> l_firm_id Ex.loan_unknown_firm)
  /\ compute_bank_biodiversity_footprint
       [Ex.loan_unknown_firm] Ex.firm_info Ex.direct Ex.L_id 0.0000437
     = inr [mk_bank_row "BANK_0" 0 0 0].
Proof.
  split; [|reflexivity].
  intros f [<- | [<- | []]]; discriminate.
Qed.

(** C4, as amended.  For an exposure whose counterparty_id is absent from
    the counterparty attribute table the allocator does not fail: it
    yields one record for that exposure whose SectorKey, intensities and
    per-pressure direct and total impacts are all missing; the footprint
    is returned, reports the exposure's bank, and every bank's sums are
    those obtained without the exposure. *)
Theorem unknown_counterparty_missing
    (l1 l2 : list Loan) (e : Loan) (firm_info : list Firm)
    (direct : list Intensity) (L : Pd.DataFrame SectorKey) (msa_ghg_factor : Q) :
  (forall f, In f firm_info -> f_firm_id f <> l_firm_id e) ->
  length (Pd.index L) = length direct ->
  exists t fp fp',
    indirect_df direct L = inr t
    /\ df (l1 ++ e :: l2) firm_info direct t
       = df l1 firm_info direct t ++ missing_row e :: df l2 firm_info direct t
    /\ compute_bank_biodiversity_footprint
         (l1 ++ e :: l2) firm_info direct L msa_ghg_factor = inr fp
    /\ compute_bank_biodiversity_footprint
         (l1 ++ l2) firm_info direct L msa_ghg_factor = inr fp'
    /\ In (l_bank_id e) (map b_bank_id fp)
    /\ (forall b,
          bank_total b_msa_ghg_total fp b == bank_total b_msa_ghg_total fp' b
          /\ bank_total b_msa_lu_total fp b == bank_total b_msa_lu_total fp' b
          /\ bank_total b_msa_total fp b == bank_total b_msa_total fp' b).
Proof.
  intros Hun Hlen. destruct (compute_ok direct L Hlen) as [t [Ht [_ Hc]]].
  assert (df (l1 ++ e :: l2) firm_info direct t
          = df l1 firm_info direct t ++ [missing_row e] ++ df l2 firm_info direct t)
    as Hdf.
  { change (e :: l2) with ([e] ++ l2). rewrite !df_app.
    rewrite (df_unknown_firm e firm_info direct t Hun). reflexivity. }
  exists t. do 2 eexists. split; [exact Ht|]. split; [exact Hdf|].
  split; [apply Hc|]. split; [apply Hc|]. split.
  - rewrite bank_fp_banks, group_labels_In, df_banks, map_app.
    apply in_or_app. right. left. reflexivity.
  - intros b. rewrite Hdf, df_app. apply bank_totals_skip.
    intros r [<- | []]. split; reflexivity.
Qed.

Lemma unknown_counterparty_missing_witness :
  exists t fp fp',
    indirect_df Ex.direct Ex.L_id = inr t
    /\ df ([Ex.loan_known] ++ Ex.loan_unknown_firm :: []) Ex.firm_info Ex.direct t
       = df [Ex.loan_known] Ex.firm_info Ex.direct t
         ++ missing_row Ex.loan_unknown_firm :: df [] Ex.firm_info Ex.direct t
    /\ compute_bank_biodiversity_footprint
         ([Ex.loan_known] ++ Ex.loan_unknown_firm :: [])
         Ex.firm_info Ex.direct Ex.L_id 0.0000437 = inr fp
    /\ compute_bank_biodiversity_footprint
         ([Ex.loan_known] ++ []) Ex.firm_info Ex.direct Ex.L_id 0.0000437 = inr fp'
    /\ In (l_bank_id Ex.loan_unknown_firm) (map b_bank_id fp)
    /\ (forall b,
          bank_total b_msa_ghg_total fp b == bank_total b_msa_ghg_total fp' b
          /\ bank_total b_msa_lu_total fp b == bank_total b_msa_lu_total fp' b
          /\ bank_total b_msa_total fp b == bank_total b_msa_total fp' b).
Proof.
  apply (unknown_counterparty_missing
           [Ex.loan_known] [] Ex.loan_unknown_firm
           Ex.firm_info Ex.direct Ex.L_id 0.0000437).
  - intros f [<- | [<- | []]]; discriminate.
  - reflexivity.
Defined.

(** ** C5: an exposure to an unmodelled sector *)

(** C5, counterexample.  FIRM_1 is in sector (IT,C), which neither
    intensity table knows.  The record allocated to a loan to FIRM_1 holds
    missing direct and total impacts, not zeros. *)
Lemma unmodelled_sector_impacts_missing :
  exists t,
    indirect_df Ex.direct Ex.L_id = inr t
    /\ ~ In Ex.IT_C (map dv_key Ex.direct)
    /\ ~ In Ex.IT_C (map in_key t)
    /\ df [Ex.loan_unmodelled_sector] Ex.firm_info Ex.direct t
       = [unmodelled_row Ex.loan_unmodelled_sector (mk_firm "FIRM_1" "IT" "C")]
    /\ map msa_ghg_direct (df [Ex.loan_unmodelled_sector] Ex.firm_info Ex.direct t)
       <> [Some 0]
    /\ map msa_ghg_total (df [Ex.loan_unmodelled_sector] Ex.firm_info Ex.direct t)
       = [None].
Proof.
  eexists. split; [reflexivity|].
  split; [intros [H | [H | []]]; discriminate|].
  split; [intros [H | [H | []]]; discriminate|].
  split; [reflexivity|]. split; [discriminate | reflexivity].
Qed.

(** C5, as amended.  For an exposure whose counterparty resolves to
    SectorKeys absent from the direct and total intensity tables,
    allocation does not fail and yields, per resolved attribute row, a
    record whose per-pressure direct and total impacts are missing values;
    the exposure's bank is still reported by the footprint, and every
    bank's sums are those obtained without the exposure, i.e. the exposure
    contributes at value zero. *)
Theorem unmodelled_sector_contributes_zero
    (l1 l2 : list Loan) (e : Loan) (firm_info : list Firm)
    (direct : list Intensity) (L : Pd.DataFrame SectorKey) (msa_ghg_factor : Q) :
  (exists f, In f firm_info /\ f_firm_id f = l_firm_id e) ->
  (forall f, In f firm_info -> f_firm_id f = l_firm_id e ->
     ~ In (f_country f, f_sector f) (map dv_key direct)
     /\ ~ In (f_country f, f_sector f) (Pd.index L)) ->
  length (Pd.index L) = length direct ->
  exists t fp fp',
    indirect_df direct L = inr t
    /\ df [e] firm_info direct t
       = map (unmodelled_row e)
             (filter (fun f => String.eqb (l_firm_id e) (f_firm_id f)) firm_info)
    /\ df [e] firm_info direct t <> []
    /\ df (l1 ++ e :: l2) firm_info direct t
       = df l1 firm_info direct t ++ df [e] firm_info direct t
         ++ df l2 firm_info direct t
    /\ compute_bank_biodiversity_footprint
         (l1 ++ e :: l2) firm_info direct L msa_ghg_factor = inr fp
    /\ compute_bank_biodiversity_footprint
         (l1 ++ l2) firm_info direct L msa_ghg_factor = inr fp'
    /\ In (l_bank_id e) (map b_bank_id fp)
    /\ (forall b,
          bank_total b_msa_ghg_total fp b == bank_total b_msa_ghg_total fp' b
          /\ bank_total b_msa_lu_total fp b == bank_total b_msa_lu_total fp' b
          /\ bank_total b_msa_total fp b == bank_total b_msa_total fp' b).
Proof.
  intros Hres Habs Hlen. destruct (compute_ok direct L Hlen) as [t [Ht [Hk Hc]]].
  assert (df [e] firm_info direct t
          = map (unmodelled_row e)
                (filter (fun f => String.eqb (l_firm_id e) (f_firm_id f)) firm_info))
    as He.
  { apply df_unmodelled_sector; [exact Hres|]. rewrite Hk. exact Habs. }
  assert (df (l1 ++ e :: l2) firm_info direct t
          = df l1 firm_info direct t ++ df [e] firm_info direct t
            ++ df l2 firm_info direct t) as Hdf.
  { change (e :: l2) with ([e] ++ l2). rewrite !df_app. reflexivity. }
  exists t. do 2 eexists. split; [exact Ht|]. split; [exact He|].
  split.
  { rewrite He. destruct Hres as [f [Hf Hid]].
    assert (In f (filter (fun f => String.eqb (l_firm_id e) (f_firm_id f)) firm_info))
      as Hin.
    { apply filter_In. split; [exact Hf|]. apply String.eqb_eq. congruence. }
    destruct (filter _ firm_info); [contradiction | discriminate]. }
  split; [exact Hdf|]. split; [apply Hc|]. split; [apply Hc|]. split.
  - rewrite bank_fp_banks, group_labels_In, df_banks, map_app.
    apply in_or_app. right. left. reflexivity.
  - intros b. rewrite Hdf, df_app. apply bank_totals_skip.
    intros r Hr. rewrite He in Hr. apply in_map_iff in Hr.
    destruct Hr as [f [<- _]]. split; reflexivity.
Qed.

Lemma unmodelled_sector_contributes_zero_witness :
  exists t fp fp',
    indirect_df Ex.direct Ex.L_id = inr t
    /\ df [Ex.loan_unmodelled_sector] Ex.firm_info Ex.direct t
       = map (unmodelled_row Ex.loan_unmodelled_sector)
             (filter (fun f => String.eqb (l_firm_id Ex.loan_unmodelled_sector)
                                          (f_firm_id f)) Ex.firm_info)
    /\ df [Ex.loan_unmodelled_sector] Ex.firm_info Ex.direct t <> []
    /\ df ([Ex.loan_known] ++ Ex.loan_unmodelled_sector :: [])
          Ex.firm_info Ex.direct t
       = df [Ex.loan_known] Ex.firm_info Ex.direct t
         ++ df [Ex.loan_unmodelled_sector] Ex.firm_info Ex.direct t
         ++ df [] Ex.firm_info Ex.direct t
    /\ compute_bank_biodiversity_footprint
         ([Ex.loan_known] ++ Ex.loan_unmodelled_sector :: [])
         Ex.firm_info Ex.direct Ex.L_id 0.0000437 = inr fp
    /\ compute_bank_biodiversity_footprint
         ([Ex.loan_known] ++ []) Ex.firm_info Ex.direct Ex.L_id 0.0000437 = inr fp'
    /\ In (l_bank_id Ex.loan_unmodelled_sector) (map b_bank_id fp)
    /\ (forall b,
          bank_total b_msa_ghg_total fp b == bank_total b_msa_ghg_total fp' b
          /\ bank_total b_msa_lu_total fp b == bank_total b_msa_lu_total fp' b
          /\ bank_total b_msa_total fp b == bank_total b_msa_total fp' b).
Proof.
  apply (unmodelled_sector_contributes_zero
           [Ex.loan_known] [] Ex.loan_unmodelled_sector
           Ex.firm_info Ex.direct Ex.L_id 0.0000437).
  - exists (mk_firm "FIRM_1" "IT" "C"). split; [right; left|]; reflexivity.
  - intros f [<- | [<- | []]] Hid; try discriminate.
    split; intros [H | [H | []]]; discriminate.
  - reflexivity.
Defined.

(** ** The loop body of [compute_dependencies] *)


Lemma weights_of_map (row_L : list Q) :
  weights_of row_L
  = map (fun x => if Qltb 0 (Np.sum row_L) then x / Np.sum row_L else 0) row_L.
Proof.
  unfold weights_of. destruct (Qltb 0 (Np.sum row_L)); reflexivity.
Qed.

Lemma weights_of_length (row_L : list Q) :
  length (weights_of row_L) = length row_L.
Proof. rewrite weights_of_map. apply length_map. Qed.

(** An escaping exception is a ValueError; otherwise the row is
    [score_row]. *)
Lemma firm_row_cases (E : Pd.DataFrame string) (L : Pd.DataFrame SectorKey)
    (cj : SectorKey) :
  (firm_row E L cj = inl ValueError
   /\ exists row_L, Pd.lookup cj (Pd.rows L) = Some row_L
                    /\ length row_L <> length (Pd.rows E))
  \/ (firm_row E L cj = inr (score_row E L cj)
      /\ forall row_L, Pd.lookup cj (Pd.rows L) = Some row_L ->
                       length row_L = length (Pd.rows E)).
Proof.
  unfold firm_row, score_row, direct_scores, indirect_scores, Pd.loc.
  destruct (Pd.lookup cj (Pd.rows L)) as [row_L|] eqn:EL.
  - unfold ret. cbn [bind]. unfold mul_axis0_sum. rewrite weights_of_length.
    destruct (Nat.eqb_spec (length row_L) (length (Pd.rows E))) as [Hlen | Hlen].
    + right. split.
      * destruct (Pd.lookup cj (Pd.rows E)); reflexivity.
      * intros r Hr. inversion Hr; subst r. exact Hlen.
    + left. split.
      * destruct (Pd.lookup cj (Pd.rows E)); reflexivity.
      * exists row_L. split; [reflexivity | exact Hlen].
  - right. split.
    + destruct (Pd.lookup cj (Pd.rows E)); reflexivity.
    + intros r Hr. discriminate.
Qed.

Lemma for_each_inr {A B} (f : A -> result B) (g : A -> B) (l : list A)
    (out : list B) :
  (forall a, In a l -> forall b, f a = inr b -> b = g a) ->
  for_each f l = inr out -> out = map g l.
Proof.
  revert out. induction l as [|a l IH]; intros out Hf H; simpl in *.
  - inversion H. reflexivity.
  - destruct (f a) as [e | b] eqn:Ea; [discriminate|]. cbn [bind] in H.
    destruct (for_each f l) as [e | bs] eqn:El; [discriminate|].
    cbn [bind ret] in H. inversion H; subst out.
    rewrite (Hf a (or_introl eq_refl) b Ea). f_equal.
    apply IH; [|reflexivity]. intros a' Ha'. apply Hf. right. exact Ha'.
Qed.


Lemma compute_dependencies_inr (firms : list Firm) (E : Pd.DataFrame string)
    (L : Pd.DataFrame SectorKey) (out : list FirmRow) :
  compute_dependencies firms E L = inr out ->
  out = map (score_row E L) (firm_keys firms).
Proof.
  unfold compute_dependencies. apply for_each_inr.
  intros cj _ b Hb. destruct (firm_row_cases E L cj) as [[He _] | [Hr _]];
    congruence.
Qed.


(** ** The cells of a score row *)

Lemma nth_zero_series {A} (l : list A) (j : nat) : nth j (map (fun _ => 0) l) 0 = 0.
Proof.
  revert j. induction l as [|x l IH]; intros [|j]; simpl; try reflexivity.
  apply IH.
Qed.


Lemma nth_total_score (ds ind : list Q) (j : nat) :
  (j < length ds)%nat -> (j < length ind)%nat ->
  nth j (total_score ds ind) 0 = total_cell (nth j ds 0) (nth j ind 0).
Proof.
  unfold total_score. revert ind j.
  induction ds as [|d ds IH]; intros [|i ind] [|j] Hd Hi; simpl in *; try lia.
  - reflexivity.
  - apply IH; lia.
Qed.

Lemma nth_error_combine_seq {A} (l : list A) (s j : nat) :
  nth_error (combine (seq s (length l)) l) j
  = option_map (fun c => ((s + j)%nat, c)) (nth_error l j).
Proof.
  revert s j. induction l as [|x l IH]; intros s [|j]; simpl; try reflexivity.
  - rewrite Nat.add_0_r. reflexivity.
  - rewrite IH. replace (S s + j)%nat with (s + S j)%nat by lia. reflexivity.
Qed.


Lemma indirect_scores_length (E : Pd.DataFrame string)
    (L : Pd.DataFrame SectorKey) (cj : SectorKey) :
  length (indirect_scores E L cj) = length (Pd.columns E).
Proof.
  unfold indirect_scores. destruct (Pd.lookup cj (Pd.rows L)).
  - rewrite length_map, length_seq. reflexivity.
  - unfold zero_series. apply length_map.
Qed.



Lemma indirect_absent (E : Pd.DataFrame string) (L : Pd.DataFrame SectorKey)
    (cj : SectorKey) (j : nat) :
  Pd.lookup cj (Pd.rows L) = None -> nth j (indirect_scores E L cj) 0 = 0.
Proof.
  intros H. unfold indirect_scores. rewrite H. apply nth_zero_series.
Qed.


(** ** C8: the saturating combination stays in the unit interval *)




(** ** C9: rows follow the firms' SectorKeys *)



(** ** The weighted average by label *)







(** ** C2: the dependency scores *)




(** ** C10: the indirect score is a convex combination *)










(** * Further properties of [compute_bank_biodiversity_footprint] *)

(** ** The banks of the footprint and their order *)

Lemma ascii_compare_lt_trans (a b c : Ascii.ascii) :
  Ascii.compare a b = Lt -> Ascii.compare b c = Lt -> Ascii.compare a c = Lt.
Proof.
  unfold Ascii.compare. rewrite !N.compare_lt_iff. apply N.lt_trans.
Qed.

Lemma label_lt_trans (s1 s2 s3 : string) :
  label_lt s1 s2 -> label_lt s2 s3 -> label_lt s1 s3.
Proof.
  unfold label_lt. revert s2 s3.
  induction s1 as [|a s1 IH]; intros [|b s2] [|c s3]; simpl;
    try discriminate; try reflexivity.
  destruct (Ascii.compare a b) eqn:Eab; try discriminate;
    destruct (Ascii.compare b c) eqn:Ebc; try discriminate; intros H1 H2.
  - apply Ascii.compare_eq_iff in Eab, Ebc. subst.
    replace (Ascii.compare c c) with Eq
      by (symmetry; unfold Ascii.compare; apply N.compare_refl).
    eapply IH; eassumption.
  - apply Ascii.compare_eq_iff in Eab. subst. rewrite Ebc. reflexivity.
  - apply Ascii.compare_eq_iff in Ebc. subst. rewrite Eab. reflexivity.
  - rewrite (ascii_compare_lt_trans a b c Eab Ebc). reflexivity.
Qed.

Lemma label_lt_irrefl (s : string) : ~ label_lt s s.
Proof.
  unfold label_lt. induction s as [|a s IH]; simpl; [discriminate|].
  replace (Ascii.compare a a) with Eq
    by (symmetry; unfold Ascii.compare; apply N.compare_refl).
  exact IH.
Qed.

Lemma label_gt_lt (a b : string) : String.compare a b = Gt -> label_lt b a.
Proof.
  unfold label_lt. intros H. rewrite String.compare_antisym, H. reflexivity.
Qed.

Lemma insert_label_sorted (b : string) (l : list string) :
  StronglySorted label_lt l -> StronglySorted label_lt (Pd.insert_label b l).
Proof.
  induction l as [|x l IH]; intros Hs; simpl.
  - constructor; constructor.
  - inversion Hs as [|? ? Hl Hx]; subst.
    destruct (String.compare b x) eqn:E.
    + exact Hs.
    + constructor; [exact Hs|]. constructor; [exact E|].
      rewrite Forall_forall in *. intros y Hy.
      apply (label_lt_trans b x y E). apply Hx. exact Hy.
    + constructor; [apply IH; exact Hl|].
      rewrite Forall_forall in *. intros y Hy.
      apply insert_label_In in Hy. destruct Hy as [-> | Hy].
      * apply label_gt_lt. exact E.
      * apply Hx. exact Hy.
Qed.

Lemma group_labels_sorted (bs : list string) :
  StronglySorted label_lt (Pd.group_labels bs).
Proof.
  unfold Pd.group_labels. induction bs as [|b bs IH]; simpl.
  - constructor.
  - apply insert_label_sorted. exact IH.
Qed.

Lemma sorted_NoDup (l : list string) : StronglySorted label_lt l -> NoDup l.
Proof.
  induction 1 as [|x l Hl IH Hx]; constructor; [|exact IH].
  intros Hin. rewrite Forall_forall in Hx.
  apply (label_lt_irrefl x). apply Hx. exact Hin.
Qed.

(** X1. Whenever the footprint is returned, its rows are the banks of the
    loan table, each once, in strictly increasing order of their
    identifier; in particular an empty loan table gives an empty
    footprint, and a bank whose loans all miss their intensities is still
    listed. *)
Theorem footprint_banks_sorted
    (loan_data : list Loan) (firm_info : list Firm) (direct : list Intensity)
    (L : Pd.DataFrame SectorKey) (msa_ghg_factor : Q) (fp : list BankRow) :
  compute_bank_biodiversity_footprint loan_data firm_info direct L msa_ghg_factor
  = inr fp ->
  (forall b, In b (map b_bank_id fp) <-> In b (map l_bank_id loan_data))
  /\ StronglySorted label_lt (map b_bank_id fp)
  /\ NoDup (map b_bank_id fp)
  /\ (loan_data = [] -> fp = []).
Proof.
  unfold compute_bank_biodiversity_footprint. intros H.
  destruct (indirect_df direct L) as [e | t]; [discriminate|].
  cbn [bind ret] in H. inversion H; subst fp. clear H.
  rewrite bank_fp_banks. split; [|split; [|split]].
  - intros b. rewrite group_labels_In. apply df_banks.
  - apply group_labels_sorted.
  - apply sorted_NoDup, group_labels_sorted.
  - intros ->. reflexivity.
Qed.

Lemma footprint_banks_sorted_witness :
  (forall b,
     In b (map b_bank_id
             [mk_bank_row "BANK_0" 0 0 0;
              mk_bank_row "BANK_1" 1.000000000000 3.000000000000
                          4.000000000000000000000000])
     <-> In b (map l_bank_id
                 [Ex.loan_known; Ex.loan_unknown_firm; Ex.loan_unmodelled_sector]))
  /\ StronglySorted label_lt ["BANK_0"; "BANK_1"]%string
  /\ NoDup ["BANK_0"; "BANK_1"]%string
  /\ ([Ex.loan_known; Ex.loan_unknown_firm; Ex.loan_unmodelled_sector] = [] ->
      [mk_bank_row "BANK_0" 0 0 0;
       mk_bank_row "BANK_1" 1.000000000000 3.000000000000
                   4.000000000000000000000000] = []).
Proof.
  exact (footprint_banks_sorted
           [Ex.loan_known; Ex.loan_unknown_firm; Ex.loan_unmodelled_sector]
           Ex.firm_info Ex.direct Ex.L_id 0.0000437 _ eq_refl).
Defined.

(** ** The footprint loan by loan *)

Lemma filter_key_absent {B K} (eqb : K -> K -> bool) (kr : B -> K) (k : K)
    (right : list B) :
  (forall a b, eqb a b = true <-> a = b) ->
  ~ In k (map kr right) ->
  filter (fun b => eqb k (kr b)) right = [].
Proof.
  intros Heq. induction right as [|y right IH]; intros Hn; simpl.
  - reflexivity.
  - destruct (eqb k (kr y)) eqn:E.
    + exfalso. apply Heq in E. apply Hn. left. symmetry. exact E.
    + apply IH. intros Hin. apply Hn. right. exact Hin.
Qed.

Lemma filter_find_unique {B K} (eqb : K -> K -> bool) (kr : B -> K) (k : K)
    (right : list B) :
  (forall a b, eqb a b = true <-> a = b) ->
  NoDup (map kr right) ->
  filter (fun b => eqb k (kr b)) right
  = match find (fun b => eqb k (kr b)) right with
    | Some b => [b]
    | None => []
    end.
Proof.
  intros Heq. induction right as [|x right IH]; intros Hnd; simpl.
  - reflexivity.
  - inversion Hnd as [|? ? Hx Hr]; subst.
    destruct (eqb k (kr x)) eqn:E.
    + f_equal. apply Heq in E. subst k.
      apply filter_key_absent; assumption.
    + apply IH. exact Hr.
Qed.

Lemma merge_left_unique {A B K} (eqb : K -> K -> bool) (kl : A -> option K)
    (kr : B -> K) (a : A) (right : list B) :
  (forall x y, eqb x y = true <-> x = y) ->
  NoDup (map kr right) ->
  Pd.merge_left eqb kl kr [a] right
  = [(a, match kl a with
         | Some k => find (fun b => eqb k (kr b)) right
         | None => None
         end)].
Proof.
  intros Heq Hnd. unfold Pd.merge_left. cbn [flat_map]. rewrite app_nil_r.
  destruct (kl a) as [k|]; [|reflexivity].
  rewrite (filter_find_unique eqb kr k right Heq Hnd).
  destruct (find _ right); reflexivity.
Qed.

(** With unique firm identifiers and unique keys in both intensity
    tables, a loan gives exactly one row of [df], of its bank, whose total
    impacts are the loan's impacts. *)
Lemma df_single_unique (e : Loan) (firm_info : list Firm)
    (direct : list Intensity) (t : list Indirect) :
  NoDup (map f_firm_id firm_info) ->
  NoDup (map dv_key direct) ->
  NoDup (map in_key t) ->
  exists r,
    df [e] firm_info direct t = [r]
    /\ bank_id r = l_bank_id e
    /\ match msa_ghg_total r with Some q => q | None => 0 end
       == loan_impact in_msa_ghg_total_per_eur t firm_info e
    /\ match msa_lu_total r with Some q => q | None => 0 end
       == loan_impact in_msa_lu_total_per_eur t firm_info e.
Proof.
  intros Hf Hd Ht. unfold df.
  rewrite (merge_left_unique String.eqb _ f_firm_id e firm_info String.eqb_eq Hf).
  rewrite (merge_left_unique key_eqb _ dv_key _ direct key_eqb_eq Hd).
  rewrite (merge_left_unique key_eqb _ in_key _ t key_eqb_eq Ht).
  eexists. split; [reflexivity|]. cbn [map fst snd bank_id msa_ghg_total msa_lu_total].
  split; [reflexivity|].
  unfold loan_impact, per_eur, sector_of.
  destruct (find (fun f => String.eqb (l_firm_id e) (f_firm_id f)) firm_info)
    as [f|]; cbn [option_map zip_key].
  - destruct (find (fun r => key_eqb (f_country f, f_sector f) (in_key r)) t)
      as [r|]; cbn [Pd.mul_cell].
    + destruct (in_msa_ghg_total_per_eur r), (in_msa_lu_total_per_eur r);
        cbn [Pd.mul_cell]; split; ring.
    + split; ring.
  - cbn [Pd.mul_cell]. split; ring.
Qed.

Lemma group_sum_by_loan (col : Row -> option Q) (impact : Loan -> Q)
    (loans : list Loan) (firm_info : list Firm) (direct : list Intensity)
    (t : list Indirect) (b : string) :
  (forall e, exists r,
     df [e] firm_info direct t = [r]
     /\ bank_id r = l_bank_id e
     /\ match col r with Some q => q | None => 0 end == impact e) ->
  Pd.sum_skipna
    (map col (filter (fun r => String.eqb (bank_id r) b)
                     (df loans firm_info direct t)))
  == Np.sum (map impact (filter (fun e => String.eqb (l_bank_id e) b) loans)).
Proof.
  intros H. induction loans as [|e loans IH].
  - reflexivity.
  - change (e :: loans) with ([e] ++ loans).
    rewrite df_app, group_sum_app, IH, filter_app, map_app, sum_app.
    destruct (H e) as [r [Hr [Hb Hv]]]. rewrite Hr.
    cbn [filter]. rewrite Hb.
    destruct (String.eqb (l_bank_id e) b); cbn [map Pd.sum_skipna Np.sum fold_right].
    + unfold Pd.sum_skipna. cbn [map Np.sum fold_right]. rewrite Hv. reflexivity.
    + reflexivity.
Qed.

Lemma unique_labels_NoDup (l : list string) :
  unique_labels l = true -> NoDup l.
Proof.
  induction l as [|x l IH]; simpl; intros H; constructor.
  - apply andb_true_iff in H. destruct H as [H _]. apply negb_true_iff in H.
    intros Hin. assert (existsb (String.eqb x) l = true) as Hex.
    { apply existsb_exists. exists x. split; [exact Hin | apply String.eqb_refl]. }
    congruence.
  - apply IH. apply andb_true_iff in H. apply H.
Qed.

(** X2. With unique firm identifiers, unique keys in the direct table and
    unique row labels in the Leontief inverse (which has as many rows as
    the direct table), the footprint is returned and, for every bank and
    each pressure, the bank's sum is the sum over the bank's loans of the
    loan amount times the total intensity per euro of the borrower's
    sector, a loan counting for 0 when its firm is unknown or its sector
    has no total intensity; the grand total is the sum of the two. *)
Theorem footprint_by_loans
    (loan_data : list Loan) (firm_info : list Firm) (direct : list Intensity)
    (L : Pd.DataFrame SectorKey) (msa_ghg_factor : Q) :
  unique_labels (map f_firm_id firm_info) = true ->
  unique_keys (map dv_key direct) = true ->
  unique_keys (Pd.index L) = true ->
  length (Pd.index L) = length direct ->
  exists t fp,
    indirect_df direct L = inr t
    /\ compute_bank_biodiversity_footprint
         loan_data firm_info direct L msa_ghg_factor = inr fp
    /\ forall b,
         bank_total b_msa_ghg_total fp b
         == Np.sum (map (loan_impact in_msa_ghg_total_per_eur t firm_info)
                        (filter (fun e => String.eqb (l_bank_id e) b) loan_data))
         /\ bank_total b_msa_lu_total fp b
            == Np.sum (map (loan_impact in_msa_lu_total_per_eur t firm_info)
                           (filter (fun e => String.eqb (l_bank_id e) b) loan_data))
         /\ bank_total b_msa_total fp b
            == bank_total b_msa_ghg_total fp b + bank_total b_msa_lu_total fp b.
Proof.
  intros Hf Hd HL Hlen. destruct (compute_ok direct L Hlen) as [t [Ht [Hk Hc]]].
  apply unique_labels_NoDup in Hf.
  exists t. eexists. split; [exact Ht|]. split; [apply Hc|].
  apply unique_keys_NoDup in Hd, HL. rewrite <- Hk in HL.
  intros b. split; [|split].
  - rewrite bank_total_ghg. apply group_sum_by_loan. intros e.
    destruct (df_single_unique e firm_info direct t Hf Hd HL)
      as [r [Hr [Hb [Hg _]]]].
    exists r. auto.
  - rewrite bank_total_lu. apply group_sum_by_loan. intros e.
    destruct (df_single_unique e firm_info direct t Hf Hd HL)
      as [r [Hr [Hb [_ Hl]]]].
    exists r. auto.
  - apply bank_total_sum.
Qed.

Lemma footprint_by_loans_witness :
  exists t fp,
    indirect_df Ex.direct Ex.L_id = inr t
    /\ compute_bank_biodiversity_footprint
         [Ex.loan_known; Ex.loan_unknown_firm; Ex.loan_unmodelled_sector]
         Ex.firm_info Ex.direct Ex.L_id 0.0000437 = inr fp
    /\ forall b,
         bank_total b_msa_ghg_total fp b
         == Np.sum (map (loan_impact in_msa_ghg_total_per_eur t Ex.firm_info)
                        (filter (fun e => String.eqb (l_bank_id e) b)
                           [Ex.loan_known; Ex.loan_unknown_firm;
                            Ex.loan_unmodelled_sector]))
         /\ bank_total b_msa_lu_total fp b
            == Np.sum (map (loan_impact in_msa_lu_total_per_eur t Ex.firm_info)
                           (filter (fun e => String.eqb (l_bank_id e) b)
                              [Ex.loan_known; Ex.loan_unknown_firm;
                               Ex.loan_unmodelled_sector]))
         /\ bank_total b_msa_total fp b
            == bank_total b_msa_ghg_total fp b + bank_total b_msa_lu_total fp b.
Proof.
  exact (footprint_by_loans
           [Ex.loan_known; Ex.loan_unknown_firm; Ex.loan_unmodelled_sector]
           Ex.firm_info Ex.direct Ex.L_id 0.0000437
           eq_refl eq_refl eq_refl eq_refl).
Defined.

(** ** Repeated attribute rows *)




(** ** Scaling the loan amounts *)





(** * Further properties of the propagation *)

Lemma sum_nonneg {A} (f : A -> Q) (l : list A) :
  (forall x, In x l -> 0 <= f x) -> 0 <= Np.sum (map f l).
Proof.
  induction l as [|x l IH]; intros H; simpl.
  - apply Qle_refl.
  - assert (0 <= f x) by (apply H; left; reflexivity).
    assert (0 <= Np.sum (map f l)) by (apply IH; intros y Hy; apply H; right; exact Hy).
    lra.
Qed.

Lemma sum_ge_term {A} (f : A -> Q) (l : list A) (x : A) :
  (forall y, In y l -> 0 <= f y) -> In x l -> f x <= Np.sum (map f l).
Proof.
  induction l as [|y l IH]; intros H Hin; simpl.
  - contradiction.
  - assert (0 <= f y) by (apply H; left; reflexivity).
    assert (0 <= Np.sum (map f l))
      by (apply sum_nonneg; intros z Hz; apply H; right; exact Hz).
    destruct Hin as [-> | Hin].
    + lra.
    + assert (f x <= Np.sum (map f l))
        by (apply IH; [intros z Hz; apply H; right; exact Hz | exact Hin]).
      lra.
Qed.

Lemma nth_nonneg (l : list Q) (j : nat) :
  forallb (Qle_bool 0) l = true -> 0 <= nth j l 0.
Proof.
  revert j. induction l as [|x l IH]; intros [|j] H; simpl in *;
    try apply Qle_refl.
  - apply andb_true_iff in H. apply Qle_bool_iff. apply H.
  - apply IH. apply andb_true_iff in H. apply H.
Qed.

Lemma L_at_nonneg (L : Pd.DataFrame SectorKey) (r c : SectorKey) :
  nonneg_frame L = true -> 0 <= L_at L r c.
Proof.
  intros H. unfold L_at, Pd.lookup.
  destruct (find _ (Pd.rows L)) as [x|] eqn:E; [|apply Qle_refl].
  destruct (position c (Pd.columns L)); [|apply Qle_refl].
  apply nth_nonneg. apply find_some in E. destruct E as [Hin _].
  unfold nonneg_frame in H. rewrite forallb_forall in H. apply H. exact Hin.
Qed.

Lemma direct_of_nonneg (direct : list Intensity) (k : SectorKey) :
  nonneg_direct direct = true ->
  0 <= direct_of dv_msa_ghg_per_eur direct k
  /\ 0 <= direct_of dv_msa_lu_per_eur direct k.
Proof.
  intros H. unfold direct_of.
  destruct (find _ direct) as [d|] eqn:E; [|split; apply Qle_refl].
  apply find_some in E. destruct E as [Hin _].
  unfold nonneg_direct in H. rewrite forallb_forall in H.
  specialize (H d Hin). apply andb_true_iff in H.
  split; apply Qle_bool_iff; apply H.
Qed.

Lemma total_formula_bounds (p : Intensity -> Q) (direct : list Intensity)
    (L : Pd.DataFrame SectorKey) (k : SectorKey) :
  nonneg_frame L = true ->
  (forall k', 0 <= direct_of p direct k') ->
  In k (map dv_key direct) ->
  1 <= L_at L k k ->
  0 <= total_formula p direct L k
  /\ direct_of p direct k <= total_formula p direct L k.
Proof.
  intros HL Hd Hk Hdiag. unfold total_formula.
  assert (forall k', In k' (map dv_key direct) ->
            0 <= L_at L k' k * direct_of p direct k') as Hterm.
  { intros k' _. apply Qmult_le_0_compat; [apply L_at_nonneg; exact HL | apply Hd]. }
  split; [apply sum_nonneg; exact Hterm|].
  eapply Qle_trans;
    [|apply (sum_ge_term (fun k' => L_at L k' k * direct_of p direct k')
               (map dv_key direct) k Hterm Hk)].
  cbn beta. specialize (Hd k). nra.
Qed.

(** X5. With the Leontief inverse and the direct table on the same
    SectorKeys in the same order, non-negative entries in both, and a
    diagonal of the inverse that is at least 1, the propagation returns
    totals that are present, non-negative, and at least the direct
    intensity of their SectorKey, for both pressures. *)
Theorem total_intensity_at_least_direct
    (direct : list Intensity) (L : Pd.DataFrame SectorKey) :
  Pd.index L = map dv_key direct ->
  Pd.columns L = map dv_key direct ->
  unique_keys (map dv_key direct) = true ->
  nonneg_frame L = true ->
  nonneg_direct direct = true ->
  diagonal_at_least_one L = true ->
  exists t,
    indirect_df direct L = inr t
    /\ forall r, In r t ->
         exists g l,
           in_msa_ghg_total_per_eur r = Some g
           /\ in_msa_lu_total_per_eur r = Some l
           /\ 0 <= direct_of dv_msa_ghg_per_eur direct (in_key r) <= g
           /\ 0 <= direct_of dv_msa_lu_per_eur direct (in_key r) <= l.
Proof.
  intros Hidx Hcol Hu HL Hd Hdiag.
  assert (length (Pd.index L) = length direct) as Hlen.
  { rewrite Hidx, length_map. reflexivity. }
  eexists. split; [apply indirect_df_ok; exact Hlen|].
  intros r Hr. apply in_map_iff in Hr. destruct Hr as [k [<- Hk]].
  cbn [in_key in_msa_ghg_total_per_eur in_msa_lu_total_per_eur].
  assert (1 <= L_at L k k) as Hkk.
  { unfold diagonal_at_least_one in Hdiag. rewrite forallb_forall in Hdiag.
    apply Qle_bool_iff. apply Hdiag. exact Hk. }
  rewrite Hidx in Hk.
  destruct (position_some k (Pd.columns L)) as [j [Hj _]].
  { rewrite Hcol. exact Hk. }
  rewrite Hj. cbn [option_map].
  assert (forall p, propagated L (map p direct) j == total_formula p direct L k)
    as Hp.
  { intros p. rewrite propagated_inner by (rewrite length_map; exact Hlen).
    apply inner_by_label; assumption. }
  do 2 eexists. split; [reflexivity|]. split; [reflexivity|].
  rewrite !Hp.
  destruct (total_formula_bounds dv_msa_ghg_per_eur direct L k HL
              (fun k' => proj1 (direct_of_nonneg direct k' Hd)) Hk Hkk) as [_ Hg].
  destruct (total_formula_bounds dv_msa_lu_per_eur direct L k HL
              (fun k' => proj2 (direct_of_nonneg direct k' Hd)) Hk Hkk) as [_ Hl].
  destruct (direct_of_nonneg direct k Hd) as [H0g H0l].
  repeat split; assumption.
Qed.

Lemma total_intensity_at_least_direct_witness :
  exists t,
    indirect_df Ex.direct Ex.L_id = inr t
    /\ forall r, In r t ->
         exists g l,
           in_msa_ghg_total_per_eur r = Some g
           /\ in_msa_lu_total_per_eur r = Some l
           /\ 0 <= direct_of dv_msa_ghg_per_eur Ex.direct (in_key r) <= g
           /\ 0 <= direct_of dv_msa_lu_per_eur Ex.direct (in_key r) <= l.
Proof.
  exact (total_intensity_at_least_direct Ex.direct Ex.L_id
           eq_refl eq_refl eq_refl eq_refl eq_refl eq_refl).
Defined.

(** ** Signs *)

Lemma inner_nonneg (a b : list Q) :
  (forall x, In x a -> 0 <= x) -> (forall y, In y b -> 0 <= y) ->
  0 <= Np.inner a b.
Proof.
  intros Ha Hb. unfold Np.inner. apply sum_nonneg. intros [x y] Hin. cbn [fst snd].
  apply Qmult_le_0_compat.
  - apply Ha. eapply in_combine_l. exact Hin.
  - apply Hb. eapply in_combine_r. exact Hin.
Qed.

Lemma propagated_nonneg (p : Intensity -> Q) (direct : list Intensity)
    (L : Pd.DataFrame SectorKey) (j : nat) :
  length (Pd.index L) = length direct ->
  nonneg_frame L = true ->
  (forall d, In d direct -> 0 <= p d) ->
  0 <= propagated L (map p direct) j.
Proof.
  intros Hlen HL Hd.
  rewrite propagated_inner by (rewrite length_map; exact Hlen).
  apply inner_nonneg.
  - intros x Hx. unfold Np.column, Pd.values in Hx. rewrite map_map in Hx.
    apply in_map_iff in Hx. destruct Hx as [r [<- Hr]].
    apply nth_nonneg. unfold nonneg_frame in HL. rewrite forallb_forall in HL.
    apply HL. exact Hr.
  - intros y Hy. apply in_map_iff in Hy. destruct Hy as [d [<- Hd']].
    apply Hd. exact Hd'.
Qed.

Lemma merge_left_snd {A B K} (eqb : K -> K -> bool) (kl : A -> option K)
    (kr : B -> K) (l : list A) (right : list B) (x : A * option B) :
  In x (Pd.merge_left eqb kl kr l right) ->
  snd x = None \/ exists b, In b right /\ snd x = Some b.
Proof.
  unfold Pd.merge_left. intros H. apply in_flat_map in H.
  destruct H as [a [_ Hx]].
  destruct (kl a) as [k|].
  - destruct (filter (fun b => eqb k (kr b)) right) as [|b bs] eqn:E.
    + destruct Hx as [<- | []]. left. reflexivity.
    + change (In x (map (fun b0 => (a, Some b0)) (b :: bs))) in Hx.
      apply in_map_iff in Hx. destruct Hx as [b' [<- Hb']]. right.
      exists b'. split; [|reflexivity].
      rewrite <- E in Hb'. apply filter_In in Hb'. apply Hb'.
  - destruct Hx as [<- | []]. left. reflexivity.
Qed.

(** The impact cells of any row of [df] come from one loan and, when
    present, from one row of [indirect_df]. *)
Lemma df_row_cells (loans : list Loan) (firm_info : list Firm)
    (direct : list Intensity) (t : list Indirect) (r : Row) :
  In r (df loans firm_info direct t) ->
  exists e,
    In e loans
    /\ (msa_ghg_total r = None /\ msa_lu_total r = None
        \/ exists i, In i t
             /\ msa_ghg_total r
                = Pd.mul_cell (in_msa_ghg_total_per_eur i) (l_loan_amount e)
             /\ msa_lu_total r
                = Pd.mul_cell (in_msa_lu_total_per_eur i) (l_loan_amount e)).
Proof.
  unfold df. intros H. apply in_map_iff in H. destruct H as [x [<- Hx]].
  exists (fst (fst (fst x))). split.
  - do 3 apply merge_left_In_fst in Hx. exact Hx.
  - cbn [msa_ghg_total msa_lu_total].
    destruct (merge_left_snd _ _ _ _ _ _ Hx) as [Hs | [i [Hi Hs]]]; rewrite Hs.
    + left. split; reflexivity.
    + right. exists i. split; [exact Hi|]. split; reflexivity.
Qed.

Lemma sum_skipna_nonneg (c : list (option Q)) :
  (forall q, In (Some q) c -> 0 <= q) -> 0 <= Pd.sum_skipna c.
Proof.
  intros H. unfold Pd.sum_skipna. apply sum_nonneg.
  intros [q|] Hin; [apply H; exact Hin | apply Qle_refl].
Qed.

(** X6. With non-negative entries in the Leontief inverse and in the
    direct table and non-negative loan amounts (the inverse having as many
    rows as the direct table), the footprint is returned and every sum in
    it is non-negative. *)
Theorem footprint_nonnegative
    (loan_data : list Loan) (firm_info : list Firm) (direct : list Intensity)
    (L : Pd.DataFrame SectorKey) (msa_ghg_factor : Q) :
  nonneg_frame L = true ->
  nonneg_direct direct = true ->
  nonneg_loans loan_data = true ->
  length (Pd.index L) = length direct ->
  exists fp,
    compute_bank_biodiversity_footprint
      loan_data firm_info direct L msa_ghg_factor = inr fp
    /\ forall b,
         0 <= bank_total b_msa_ghg_total fp b
         /\ 0 <= bank_total b_msa_lu_total fp b
         /\ 0 <= bank_total b_msa_total fp b.
Proof.
  intros HL Hd Hloans Hlen.
  unfold compute_bank_biodiversity_footprint.
  rewrite (indirect_df_ok direct L Hlen). cbn [bind ret].
  eexists. split; [reflexivity|].
  set (t := map _ (Pd.index L)).
  assert (forall i, In i t ->
            (forall q, in_msa_ghg_total_per_eur i = Some q -> 0 <= q)
            /\ (forall q, in_msa_lu_total_per_eur i = Some q -> 0 <= q)) as Ht.
  { intros i Hi. unfold t in Hi. apply in_map_iff in Hi.
    destruct Hi as [k [<- _]].
    cbn [in_msa_ghg_total_per_eur in_msa_lu_total_per_eur].
    unfold nonneg_direct in Hd. rewrite forallb_forall in Hd.
    destruct (position k (Pd.columns L)) as [j|]; cbn [option_map];
      split; intros q Hq; inversion Hq; subst q.
    - apply propagated_nonneg; try assumption. intros d Hin.
      specialize (Hd d Hin). apply andb_true_iff in Hd.
      apply Qle_bool_iff. apply Hd.
    - apply propagated_nonneg; try assumption. intros d Hin.
      specialize (Hd d Hin). apply andb_true_iff in Hd.
      apply Qle_bool_iff. apply Hd. }
  assert (forall r, In r (df loan_data firm_info direct t) ->
            (forall q, msa_ghg_total r = Some q -> 0 <= q)
            /\ (forall q, msa_lu_total r = Some q -> 0 <= q)) as Hrows.
  { intros r Hr. destruct (df_row_cells _ _ _ _ _ Hr) as [e [He Hcells]].
    assert (0 <= l_loan_amount e) as Ha.
    { unfold nonneg_loans in Hloans. rewrite forallb_forall in Hloans.
      apply Qle_bool_iff. apply Hloans. exact He. }
    destruct Hcells as [[Hg Hlu] | [i [Hi [Hg Hlu]]]].
    - rewrite Hg, Hlu. split; intros q Hq; discriminate.
    - destruct (Ht i Hi) as [Hti Htl]. rewrite Hg, Hlu. split; intros q Hq.
      + destruct (in_msa_ghg_total_per_eur i) as [x|]; [|discriminate].
        cbn in Hq. inversion Hq; subst q.
        apply Qmult_le_0_compat; [apply Hti; reflexivity | exact Ha].
      + destruct (in_msa_lu_total_per_eur i) as [x|]; [|discriminate].
        cbn in Hq. inversion Hq; subst q.
        apply Qmult_le_0_compat; [apply Htl; reflexivity | exact Ha]. }
  intros b.
  assert (0 <= bank_total b_msa_ghg_total
                  (bank_fp (df loan_data firm_info direct t)) b) as Hg.
  { rewrite bank_total_ghg. apply sum_skipna_nonneg. intros q Hq.
    apply in_map_iff in Hq. destruct Hq as [r [Hq Hr]].
    apply filter_In in Hr. apply (proj1 (Hrows r (proj1 Hr)) q Hq). }
  assert (0 <= bank_total b_msa_lu_total
                  (bank_fp (df loan_data firm_info direct t)) b) as Hl.
  { rewrite bank_total_lu. apply sum_skipna_nonneg. intros q Hq.
    apply in_map_iff in Hq. destruct Hq as [r [Hq Hr]].
    apply filter_In in Hr. apply (proj2 (Hrows r (proj1 Hr)) q Hq). }
  split; [exact Hg|]. split; [exact Hl|].
  rewrite bank_total_sum. lra.
Qed.

Lemma footprint_nonnegative_witness :
  exists fp,
    compute_bank_biodiversity_footprint
      [Ex.loan_known; Ex.loan_unknown_firm; Ex.loan_unmodelled_sector]
      Ex.firm_info Ex.direct Ex.L_id 0.0000437 = inr fp
    /\ forall b,
         0 <= bank_total b_msa_ghg_total fp b
         /\ 0 <= bank_total b_msa_lu_total fp b
         /\ 0 <= bank_total b_msa_total fp b.
Proof.
  exact (footprint_nonnegative
           [Ex.loan_known; Ex.loan_unknown_firm; Ex.loan_unmodelled_sector]
           Ex.firm_info Ex.direct Ex.L_id 0.0000437
           eq_refl eq_refl eq_refl eq_refl).
Defined.

(** * Further properties of [compute_dependencies] *)

(** ** Failure and batches *)






(** ** Firms whose sector is in neither table *)

Lemma score_row_cells (E : Pd.DataFrame string) (L : Pd.DataFrame SectorKey)
    (cj : SectorKey) (j : nat) (s : ServiceScore) :
  nth_error (fr_scores (score_row E L cj)) j = Some s ->
  (j < length (Pd.columns E))%nat
  /\ nth_error (Pd.columns E) j = Some (es s)
  /\ es_direct s = nth j (direct_scores E cj) 0
  /\ es_indirect s = nth j (indirect_scores E L cj) 0
  /\ es_total s
     = nth j (total_score (direct_scores E cj) (indirect_scores E L cj)) 0.
Proof.
  intros Hs. unfold score_row in Hs. cbn [fr_scores] in Hs.
  rewrite nth_error_map, nth_error_combine_seq in Hs.
  destruct (nth_error (Pd.columns E) j) as [name|] eqn:En; [|discriminate].
  cbn [option_map] in Hs. inversion Hs; subst s. clear Hs.
  cbn [es es_direct es_indirect es_total fst snd Nat.add].
  split; [apply nth_error_Some; congruence|]. repeat split; reflexivity.
Qed.

Lemma lookup_absent {V} (k : SectorKey) (l : list (SectorKey * V)) :
  ~ In k (map fst l) -> Pd.lookup k l = None.
Proof.
  intros H. unfold Pd.lookup. rewrite (find_absent fst l k H). reflexivity.
Qed.

(** X9. In every result of [compute_dependencies], each row lists the
    services of the direct dependency table in order.  For a firm whose
    SectorKey is not a row label of that table, every direct score is 0
    and the total equals the indirect score; for a firm whose SectorKey is
    not a row label of the Leontief inverse, every indirect score is 0;
    for a firm in neither, the whole row is zero. *)
Theorem unmapped_firm_scores
    (firms : list Firm) (E : Pd.DataFrame string) (L : Pd.DataFrame SectorKey)
    (out : list FirmRow) :
  compute_dependencies firms E L = inr out ->
  forall i f r,
    nth_error firms i = Some f -> nth_error out i = Some r ->
    map es (fr_scores r) = Pd.columns E
    /\ (~ In (f_country f, f_sector f) (Pd.index E) ->
        forall s, In s (fr_scores r) ->
          es_direct s = 0 /\ es_total s == es_indirect s)
    /\ (~ In (f_country f, f_sector f) (Pd.index L) ->
        forall s, In s (fr_scores r) -> es_indirect s = 0)
    /\ (~ In (f_country f, f_sector f) (Pd.index E) ->
        ~ In (f_country f, f_sector f) (Pd.index L) ->
        forall s, In s (fr_scores r) ->
          es_direct s = 0 /\ es_indirect s = 0 /\ es_total s == 0).
Proof.
  intros Hout i f r Hf Hr.
  apply compute_dependencies_inr in Hout. subst out.
  unfold firm_keys in Hr. rewrite map_map, nth_error_map, Hf in Hr.
  cbn [option_map] in Hr. inversion Hr; subst r. clear Hr.
  set (cj := (f_country f, f_sector f)).
  assert (~ In cj (Pd.index E) ->
          forall s, In s (fr_scores (score_row E L cj)) ->
            es_direct s = 0 /\ es_total s == es_indirect s) as HE.
  { intros Habs s Hs. apply In_nth_error in Hs. destruct Hs as [j Hj].
    destruct (score_row_cells E L cj j s Hj) as [Hlt [_ [Hd [Hi Ht]]]].
    assert (direct_scores E cj = zero_series (Pd.columns E)) as Hz.
    { unfold direct_scores. rewrite (lookup_absent cj (Pd.rows E) Habs).
      reflexivity. }
    rewrite Hz in Hd, Ht. unfold zero_series in Hd, Ht.
    rewrite nth_zero_series in Hd. split; [exact Hd|].
    rewrite Ht, Hi, nth_total_score.
    - rewrite nth_zero_series. unfold total_cell. ring.
    - rewrite length_map. exact Hlt.
    - rewrite indirect_scores_length. exact Hlt. }
  assert (~ In cj (Pd.index L) ->
          forall s, In s (fr_scores (score_row E L cj)) -> es_indirect s = 0) as HL.
  { intros Habs s Hs. apply In_nth_error in Hs. destruct Hs as [j Hj].
    destruct (score_row_cells E L cj j s Hj) as [_ [_ [_ [Hi _]]]].
    rewrite Hi. apply indirect_absent. apply lookup_absent. exact Habs. }
  split; [|split; [exact HE|split; [exact HL|]]].
  - unfold score_row. cbn [fr_scores]. rewrite map_map. cbn [es].
    apply map_snd_combine. apply length_seq.
  - intros HaE HaL s Hs. destruct (HE HaE s Hs) as [Hd Ht].
    pose proof (HL HaL s Hs) as Hi.
    split; [exact Hd|]. split; [exact Hi|]. rewrite Ht, Hi. reflexivity.
Qed.

Lemma unmapped_firm_scores_witness :
  map es (fr_scores (mk_firm_row "IT" "C"
                       [mk_service_score "pollination" 0 0 0;
                        mk_service_score "flood_protection" 0 0 0]))
  = Pd.columns Ex.encore
  /\ (~ In Ex.IT_C (Pd.index Ex.encore) ->
      forall s, In s [mk_service_score "pollination" 0 0 0;
                      mk_service_score "flood_protection" 0 0 0] ->
        es_direct s = 0 /\ es_total s == es_indirect s)
  /\ (~ In Ex.IT_C (Pd.index Ex.L_dep) ->
      forall s, In s [mk_service_score "pollination" 0 0 0;
                      mk_service_score "flood_protection" 0 0 0] ->
        es_indirect s = 0)
  /\ (~ In Ex.IT_C (Pd.index Ex.encore) ->
      ~ In Ex.IT_C (Pd.index Ex.L_dep) ->
      forall s, In s [mk_service_score "pollination" 0 0 0;
                      mk_service_score "flood_protection" 0 0 0] ->
        es_direct s = 0 /\ es_indirect s = 0 /\ es_total s == 0).
Proof.
  exact (unmapped_firm_scores Ex.firms Ex.encore Ex.L_dep _ eq_refl
           1%nat (mk_firm "FIRM_1" "IT" "C") _ eq_refl eq_refl).
Defined.

(** ** The saturating combination *)



(** ** Rescaling the Leontief inverse *)














(** * The direct table in the footprint *)

Lemma df_banks_unique (loans : list Loan) (firm_info : list Firm)
    (direct : list Intensity) (t : list Indirect) :
  NoDup (map f_firm_id firm_info) ->
  NoDup (map dv_key direct) ->
  NoDup (map in_key t) ->
  map bank_id (df loans firm_info direct t) = map l_bank_id loans.
Proof.
  intros Hf Hd Ht. induction loans as [|e loans IH]; [reflexivity|].
  change (e :: loans) with ([e] ++ loans). rewrite df_app, !map_app, IH.
  destruct (df_single_unique e firm_info direct t Hf Hd Ht) as [r [Hr [Hb _]]].
  rewrite Hr. cbn [map]. rewrite Hb. reflexivity.
Qed.

Lemma indirect_df_values (direct direct' : list Intensity)
    (L : Pd.DataFrame SectorKey) :
  map dv_msa_ghg_per_eur direct' = map dv_msa_ghg_per_eur direct ->
  map dv_msa_lu_per_eur direct' = map dv_msa_lu_per_eur direct ->
  indirect_df direct' L = indirect_df direct L.
Proof.
  intros Hg Hl. unfold indirect_df, F_ghg, F_lu. rewrite Hg, Hl. reflexivity.
Qed.

(** X12. The labels of the direct intensity table have no effect on the
    footprint: with unique firm identifiers, unique labels in both direct
    tables and unique row labels in the Leontief inverse, two direct
    tables holding the same values in the same order give the same banks
    and the same sums, however their rows are labelled. *)
Theorem footprint_ignores_direct_labels
    (loan_data : list Loan) (firm_info : list Firm)
    (direct direct' : list Intensity)
    (L : Pd.DataFrame SectorKey) (msa_ghg_factor : Q) :
  unique_labels (map f_firm_id firm_info) = true ->
  unique_keys (map dv_key direct) = true ->
  unique_keys (map dv_key direct') = true ->
  unique_keys (Pd.index L) = true ->
  map dv_msa_ghg_per_eur direct' = map dv_msa_ghg_per_eur direct ->
  map dv_msa_lu_per_eur direct' = map dv_msa_lu_per_eur direct ->
  match compute_bank_biodiversity_footprint
          loan_data firm_info direct L msa_ghg_factor,
        compute_bank_biodiversity_footprint
          loan_data firm_info direct' L msa_ghg_factor with
  | inr fp, inr fp' =>
      map b_bank_id fp' = map b_bank_id fp
      /\ forall b,
           bank_total b_msa_ghg_total fp' b == bank_total b_msa_ghg_total fp b
           /\ bank_total b_msa_lu_total fp' b == bank_total b_msa_lu_total fp b
           /\ bank_total b_msa_total fp' b == bank_total b_msa_total fp b
  | inl e, inl e' => e = e'
  | _, _ => False
  end.
Proof.
  intros Hf Hd Hd' HL Hg Hl. unfold compute_bank_biodiversity_footprint.
  rewrite (indirect_df_values direct direct' L Hg Hl).
  destruct (Nat.eq_dec (length (Pd.index L)) (length direct)) as [Hlen | Hlen].
  2: { rewrite (indirect_df_error direct L Hlen). reflexivity. }
  destruct (compute_ok direct L Hlen) as [t [Ht [Hk _]]]. rewrite Ht.
  cbn [bind ret].
  apply unique_labels_NoDup in Hf. apply unique_keys_NoDup in Hd, Hd', HL.
  rewrite <- Hk in HL.
  split.
  - rewrite !bank_fp_banks, !df_banks_unique by assumption. reflexivity.
  - intros b.
    assert (bank_total b_msa_ghg_total
              (bank_fp (df loan_data firm_info direct' t)) b
            == bank_total b_msa_ghg_total
                 (bank_fp (df loan_data firm_info direct t)) b) as Hbg.
    { rewrite !bank_total_ghg.
      rewrite (group_sum_by_loan msa_ghg_total
                 (loan_impact in_msa_ghg_total_per_eur t firm_info)
                 loan_data firm_info direct' t b).
      - symmetry. apply group_sum_by_loan. intros e.
        destruct (df_single_unique e firm_info direct t Hf Hd HL)
          as [r [Hr [Hb [Hv _]]]]. exists r. auto.
      - intros e.
        destruct (df_single_unique e firm_info direct' t Hf Hd' HL)
          as [r [Hr [Hb [Hv _]]]]. exists r. auto. }
    assert (bank_total b_msa_lu_total
              (bank_fp (df loan_data firm_info direct' t)) b
            == bank_total b_msa_lu_total
                 (bank_fp (df loan_data firm_info direct t)) b) as Hbl.
    { rewrite !bank_total_lu.
      rewrite (group_sum_by_loan msa_lu_total
                 (loan_impact in_msa_lu_total_per_eur t firm_info)
                 loan_data firm_info direct' t b).
      - symmetry. apply group_sum_by_loan. intros e.
        destruct (df_single_unique e firm_info direct t Hf Hd HL)
          as [r [Hr [Hb [_ Hv]]]]. exists r. auto.
      - intros e.
        destruct (df_single_unique e firm_info direct' t Hf Hd' HL)
          as [r [Hr [Hb [_ Hv]]]]. exists r. auto. }
    split; [exact Hbg|]. split; [exact Hbl|].
    rewrite !bank_total_sum, Hbg, Hbl. reflexivity.
Qed.

Lemma footprint_ignores_direct_labels_witness :
  match compute_bank_biodiversity_footprint
          [Ex.loan_known; Ex.loan_unknown_firm; Ex.loan_unmodelled_sector]
          Ex.firm_info Ex.direct Ex.L_id 0.0000437,
        compute_bank_biodiversity_footprint
          [Ex.loan_known; Ex.loan_unknown_firm; Ex.loan_unmodelled_sector]
          Ex.firm_info Ex2.direct_relabelled Ex.L_id 0.0000437 with
  | inr fp, inr fp' =>
      map b_bank_id fp' = map b_bank_id fp
      /\ forall b,
           bank_total b_msa_ghg_total fp' b == bank_total b_msa_ghg_total fp b
           /\ bank_total b_msa_lu_total fp' b == bank_total b_msa_lu_total fp b
           /\ bank_total b_msa_total fp' b == bank_total b_msa_total fp b
  | inl e, inl e' => e = e'
  | _, _ => False
  end.
Proof.
  exact (footprint_ignores_direct_labels
           [Ex.loan_known; Ex.loan_unknown_firm; Ex.loan_unmodelled_sector]
           Ex.firm_info Ex.direct Ex2.direct_relabelled Ex.L_id 0.0000437
           eq_refl eq_refl eq_refl eq_refl eq_refl eq_refl).
Defined.

(** * Superposition of direct tables *)





